(** * Restock notification bot: the dashboard front-ends

    A shallow embedding of the two JavaScript front-ends of the restock
    bot (the API-backed [RestockDashboard] class of
    [static/js/dashboard.js] and the self-contained demo dashboard), and of
    the monitoring engine the specification describes behind the HTTP API. *)

From Stdlib Require Import ZArith NArith QArith Qround List Lia Lqa.
From Stdlib Require PrimFloat FloatOps SpecFloat Uint63.
From stdpp Require Import base list gmap strings.

Local Open Scope nat_scope.

(** ** JavaScript strings

    A JavaScript string is a sequence of UTF-16 code units.  [trim] and the
    regular-expression class [\s] agree on what white space is: the
    WhiteSpace and LineTerminator code points of ECMAScript. *)

Module JS.

Definition jsstring := list N.

(** A literal, written as a Rocq string (one code unit per character). *)
Definition lit (s : string) : jsstring :=
  map Ascii.N_of_ascii (String.list_ascii_of_string s).

Definition in_range (lo hi c : N) : bool := ((lo <=? c) && (c <=? hi))%N.

Definition is_space (c : N) : bool :=
  in_range 9 13 c
  || (c =? 32)%N || (c =? 160)%N || (c =? 5760)%N
  || in_range 8192 8202 c
  || (c =? 8232)%N || (c =? 8233)%N || (c =? 8239)%N || (c =? 8287)%N
  || (c =? 12288)%N || (c =? 65279)%N.

Section Trim.
Context {A : Type} (ws : A -> bool).

Fixpoint trimStart_with (s : list A) : list A :=
  match s with
  | [] => []
  | c :: s' => if ws c then trimStart_with s' else s
  end.

Definition trimEnd_with (s : list A) : list A :=
  rev (trimStart_with (rev s)).

Definition trim_with (s : list A) : list A :=
  trimEnd_with (trimStart_with s).
End Trim.

(** [String.prototype.trim] *)
Definition trim : jsstring -> jsstring := trim_with is_space.

(** [!s] for a string [s]: only the empty string is falsy. *)
Definition falsy (s : jsstring) : bool :=
  match s with [] => true | _ :: _ => false end.

(** [a || b] for strings that may be [undefined]. *)
Definition or_else (a : option jsstring) (b : jsstring) : jsstring :=
  match a with
  | Some (c :: s) => c :: s
  | _ => b
  end.

(** [s.slice(0, n)] for [n >= 0] *)
Definition slice0 (n : nat) (s : jsstring) : jsstring := take n s.

(** [s.replace(x, y)] for one-unit strings [x], [y]: the first occurrence
    only. *)
Fixpoint replace_first (x y : N) (s : jsstring) : jsstring :=
  match s with
  | [] => []
  | c :: s' => if (c =? x)%N then y :: s' else c :: replace_first x y s'
  end.

(** [s.includes(pat)] *)
Fixpoint starts_with (pat s : jsstring) : bool :=
  match pat, s with
  | [], _ => true
  | _ :: _, [] => false
  | p :: pat', c :: s' => (p =? c)%N && starts_with pat' s'
  end.

Fixpoint includes (pat s : jsstring) : bool :=
  starts_with pat s ||
  match s with
  | [] => false
  | _ :: s' => includes pat s'
  end.

End JS.

(** ** Regular expressions over code units

    Enough of the regular-expression language for the patterns of the
    dashboard: character classes, sequence, alternation and repetition.  A
    pattern anchored by [^] and [$] (and without flags) is tested by
    matching the whole string. *)

Module Regex.

Inductive regex : Type :=
| Void
| Eps
| Class (f : N -> bool)
| Seq (r1 r2 : regex)
| Alt (r1 r2 : regex)
| Star (r : regex).

(** [r+] *)
Definition Plus (r : regex) : regex := Seq r (Star r).

(** A literal code unit. *)
Definition Chr (c : N) : regex := Class (fun d => (d =? c)%N).

Inductive matches : regex -> list N -> Prop :=
| MEps : matches Eps []
| MClass f c : f c = true -> matches (Class f) [c]
| MSeq r1 r2 s1 s2 :
    matches r1 s1 -> matches r2 s2 -> matches (Seq r1 r2) (s1 ++ s2)
| MAltL r1 r2 s : matches r1 s -> matches (Alt r1 r2) s
| MAltR r1 r2 s : matches r2 s -> matches (Alt r1 r2) s
| MStarNil r : matches (Star r) []
| MStarApp r s1 s2 :
    matches r s1 -> matches (Star r) s2 -> matches (Star r) (s1 ++ s2).

Fixpoint nullable (r : regex) : bool :=
  match r with
  | Void => false
  | Eps => true
  | Class _ => false
  | Seq r1 r2 => nullable r1 && nullable r2
  | Alt r1 r2 => nullable r1 || nullable r2
  | Star _ => true
  end.

Fixpoint deriv (c : N) (r : regex) : regex :=
  match r with
  | Void => Void
  | Eps => Void
  | Class f => if f c then Eps else Void
  | Seq r1 r2 =>
      if nullable r1
      then Alt (Seq (deriv c r1) r2) (deriv c r2)
      else Seq (deriv c r1) r2
  | Alt r1 r2 => Alt (deriv c r1) (deriv c r2)
  | Star r1 => Seq (deriv c r1) (Star r1)
  end.

(** [/^r$/.test(s)] *)
Fixpoint test (r : regex) (s : list N) : bool :=
  match s with
  | [] => nullable r
  | c :: s' => test (deriv c r) s'
  end.

End Regex.

(** ** The API-backed dashboard ([static/js/dashboard.js]) *)

Module Dashboard.
Import JS Regex.

(** The fields of [addProductForm], as [FormData.get] returns them. *)
Record form := {
  productName : jsstring;
  productUrl : jsstring;
  productSelector : jsstring;
  expectedText : jsstring;
  productEmail : jsstring
}.

(** The body of the [POST /api/products] request. *)
Record productData := {
  name : jsstring;
  url : jsstring;
  selector : jsstring;
  expected_text : jsstring;
  email : jsstring
}.

(** What comes back from [fetch] and [response.json()]. *)
Inductive response :=
| ResponseOk (message : jsstring)
| ResponseNotOk (detail : option jsstring)
| RequestFailed.

(** What a handler does to the page and to the network, in order. *)
Inductive effect :=
| ShowNotification (message : jsstring) (type : string)
| SubmitButton (textContent : string) (disabled : bool)
| PostProduct (body : productData)
| FormReset
| LoadData
| ConsoleError.

(** [[^\s@]] *)
Definition notSpaceAt (c : N) : bool := negb (is_space c || (c =? 64)%N).

(** [/^[^\s@]+@[^\s@]+\.[^\s@]+$/] *)
Definition emailRegex : regex :=
  Seq (Plus (Class notSpaceAt))
    (Seq (Chr 64)
      (Seq (Plus (Class notSpaceAt))
        (Seq (Chr 46) (Plus (Class notSpaceAt))))).

Section HandleAddProduct.
(** [new URL(s)] returns rather than throws. *)
Variable URL_parses : jsstring -> bool.

Definition readForm (f : form) : productData :=
  {| name := trim (productName f);
     url := trim (productUrl f);
     selector := trim (productSelector f);
     expected_text := trim (expectedText f);
     email := trim (productEmail f) |}.

Definition handleAddProduct (f : form) (server : productData -> response)
  : list effect :=
  let productData := readForm f in
  if falsy (name productData) || falsy (url productData)
     || falsy (selector productData) || falsy (expected_text productData)
     || falsy (email productData)
  then [ShowNotification (lit "Please fill in all fields") "error"]
  else if negb (URL_parses (url productData))
  then [ShowNotification (lit "Please enter a valid URL") "error"]
  else if negb (test emailRegex (email productData))
  then [ShowNotification (lit "Please enter a valid email address") "error"]
  else
    [SubmitButton "Adding..." true; PostProduct productData]
    ++ match server productData with
       | ResponseOk message =>
           [ShowNotification message "success"; FormReset; LoadData]
       | ResponseNotOk detail =>
           [ShowNotification (or_else detail (lit "Error adding product"))
              "error"]
       | RequestFailed =>
           [ConsoleError;
            ShowNotification (lit "Network error. Please try again.") "error"]
       end
    ++ [SubmitButton "Add Product" false].
End HandleAddProduct.


Definition getLogClass (log : jsstring) : string :=
  if includes (lit "ERROR") log then "log-error"
  else if includes (lit "WARNING") log then "log-warning"
  else if includes (lit "INFO") log then "log-info"
  else "".


Section RenderLogs.
(** The browser's text-to-HTML escaping ([div.textContent] read back as
    [div.innerHTML]). *)
Variable escapeHtml : jsstring -> jsstring.

End RenderLogs.

(** A well-formed address, in words: [local@domain.tail], the three parts
    non-empty and free of white space and of [@]. *)
Definition plain (s : jsstring) : Prop :=
  s <> [] /\ Forall (fun c => is_space c = false /\ c <> 64%N) s.

Definition well_formed_email (s : jsstring) : Prop :=
  exists a b c, s = a ++ 64%N :: b ++ 46%N :: c /\ plain a /\ plain b /\ plain c.

(** A creation request the form accepts. *)
Definition acceptable (URL_parses : jsstring -> bool) (d : productData) : Prop :=
  name d <> [] /\ url d <> [] /\ selector d <> [] /\ expected_text d <> []
  /\ email d <> [] /\ URL_parses (url d) = true /\ well_formed_email (email d).

(** Nothing but white space, if anything. *)
Definition blank (x : jsstring) : Prop := Forall (fun c => is_space c = true) x.

(** [u] is what [x] holds between the white space around it. *)
Definition stripped (x u : jsstring) : Prop :=
  exists pre post,
    x = pre ++ u ++ post /\ blank pre /\ blank post
    /\ (forall c, head u = Some c -> is_space c = false)
    /\ (forall c, last u = Some c -> is_space c = false).

(** The request [d] holds the fields of the form as they were typed, less
    the white space around each. *)
Definition submission (f : form) (d : productData) : Prop :=
  stripped (productName f) (name d) /\ stripped (productUrl f) (url d)
  /\ stripped (productSelector f) (selector d)
  /\ stripped (expectedText f) (expected_text d)
  /\ stripped (productEmail f) (email d).

(** A field of the form was left empty, white space apart. *)
Definition incomplete (f : form) : Prop :=
  blank (productName f) \/ blank (productUrl f) \/ blank (productSelector f)
  \/ blank (expectedText f) \/ blank (productEmail f).

End Dashboard.

(** ** The self-contained demo dashboard

    The demo keeps its products in a script-level array of objects and
    simulates the bot in the browser.  Objects live in a heap and the
    [products] array holds references, because the callback of
    [testProduct] keeps the object it found and writes to it two seconds
    later, whether or not the array still holds it.

    Every reading of the clock and every draw of [Math.random()] is an
    input of the handler that makes it: [now] stands for the string
    [new Date().toISOString()] returned, [now_ms] for [Date.now()], and a
    draw is taken as the rational it denotes. *)

Module Demo.
Import JS.

Record product := {
  id : Z;
  name : jsstring;
  url : jsstring;
  selector : jsstring;
  expectedText : jsstring;
  email : jsstring;
  isActive : bool;
  lastChecked : option jsstring;
  createdAt : jsstring
}.

(** [product.lastChecked = v] *)
Definition set_lastChecked (v : jsstring) (p : product) : product :=
  {| id := id p; name := name p; url := url p; selector := selector p;
     expectedText := expectedText p; email := email p;
     isActive := isActive p; lastChecked := Some v;
     createdAt := createdAt p |}.

(** The fields of [addProductForm]. *)
Record form := {
  productName : jsstring;
  productUrl : jsstring;
  productSelector : jsstring;
  expectedTextField : jsstring;
  productEmail : jsstring
}.

(** One child of [logsList]:
    [<span class="log-time">now</span> - message]. *)
Record logEntry := { logTime : jsstring; logMessage : jsstring }.

(** A callback waiting in [setTimeout]. *)
Inductive callback :=
| InitialLogs
| TestResult (product : nat)
| EmailResult.

Record state := {
  (** script variables *)
  heap : list product;
  products : list nat;
  monitoringActive : bool;
  monitoringInterval : option positive;
  (** the browser: live [setInterval] timers, waiting [setTimeout]
      callbacks, and whether [setupEventListeners] has run *)
  intervals : gset positive;
  timeouts : list callback;
  listening : bool;
  (** the page *)
  productsList : list product;
  totalProducts : nat;
  activeProducts : nat;
  notificationsSent : nat;
  monitoringStatus : jsstring * string;
  logsList : list logEntry;
  shown : list (jsstring * string);
  modal : bool * option product
}.

Definition with_heap v (s : state) : state :=
  {| heap := v; products := products s; monitoringActive := monitoringActive s;
    monitoringInterval := monitoringInterval s; intervals := intervals s; timeouts := timeouts s;
    listening := listening s; productsList := productsList s; totalProducts := totalProducts s;
    activeProducts := activeProducts s; notificationsSent := notificationsSent s; monitoringStatus := monitoringStatus s;
    logsList := logsList s; shown := shown s; modal := modal s |}.

Definition with_products v (s : state) : state :=
  {| heap := heap s; products := v; monitoringActive := monitoringActive s;
    monitoringInterval := monitoringInterval s; intervals := intervals s; timeouts := timeouts s;
    listening := listening s; productsList := productsList s; totalProducts := totalProducts s;
    activeProducts := activeProducts s; notificationsSent := notificationsSent s; monitoringStatus := monitoringStatus s;
    logsList := logsList s; shown := shown s; modal := modal s |}.

Definition with_monitoringActive v (s : state) : state :=
  {| heap := heap s; products := products s; monitoringActive := v;
    monitoringInterval := monitoringInterval s; intervals := intervals s; timeouts := timeouts s;
    listening := listening s; productsList := productsList s; totalProducts := totalProducts s;
    activeProducts := activeProducts s; notificationsSent := notificationsSent s; monitoringStatus := monitoringStatus s;
    logsList := logsList s; shown := shown s; modal := modal s |}.

Definition with_monitoringInterval v (s : state) : state :=
  {| heap := heap s; products := products s; monitoringActive := monitoringActive s;
    monitoringInterval := v; intervals := intervals s; timeouts := timeouts s;
    listening := listening s; productsList := productsList s; totalProducts := totalProducts s;
    activeProducts := activeProducts s; notificationsSent := notificationsSent s; monitoringStatus := monitoringStatus s;
    logsList := logsList s; shown := shown s; modal := modal s |}.

Definition with_intervals v (s : state) : state :=
  {| heap := heap s; products := products s; monitoringActive := monitoringActive s;
    monitoringInterval := monitoringInterval s; intervals := v; timeouts := timeouts s;
    listening := listening s; productsList := productsList s; totalProducts := totalProducts s;
    activeProducts := activeProducts s; notificationsSent := notificationsSent s; monitoringStatus := monitoringStatus s;
    logsList := logsList s; shown := shown s; modal := modal s |}.

Definition with_timeouts v (s : state) : state :=
  {| heap := heap s; products := products s; monitoringActive := monitoringActive s;
    monitoringInterval := monitoringInterval s; intervals := intervals s; timeouts := v;
    listening := listening s; productsList := productsList s; totalProducts := totalProducts s;
    activeProducts := activeProducts s; notificationsSent := notificationsSent s; monitoringStatus := monitoringStatus s;
    logsList := logsList s; shown := shown s; modal := modal s |}.

Definition with_listening v (s : state) : state :=
  {| heap := heap s; products := products s; monitoringActive := monitoringActive s;
    monitoringInterval := monitoringInterval s; intervals := intervals s; timeouts := timeouts s;
    listening := v; productsList := productsList s; totalProducts := totalProducts s;
    activeProducts := activeProducts s; notificationsSent := notificationsSent s; monitoringStatus := monitoringStatus s;
    logsList := logsList s; shown := shown s; modal := modal s |}.

Definition with_productsList v (s : state) : state :=
  {| heap := heap s; products := products s; monitoringActive := monitoringActive s;
    monitoringInterval := monitoringInterval s; intervals := intervals s; timeouts := timeouts s;
    listening := listening s; productsList := v; totalProducts := totalProducts s;
    activeProducts := activeProducts s; notificationsSent := notificationsSent s; monitoringStatus := monitoringStatus s;
    logsList := logsList s; shown := shown s; modal := modal s |}.

Definition with_totalProducts v (s : state) : state :=
  {| heap := heap s; products := products s; monitoringActive := monitoringActive s;
    monitoringInterval := monitoringInterval s; intervals := intervals s; timeouts := timeouts s;
    listening := listening s; productsList := productsList s; totalProducts := v;
    activeProducts := activeProducts s; notificationsSent := notificationsSent s; monitoringStatus := monitoringStatus s;
    logsList := logsList s; shown := shown s; modal := modal s |}.

Definition with_activeProducts v (s : state) : state :=
  {| heap := heap s; products := products s; monitoringActive := monitoringActive s;
    monitoringInterval := monitoringInterval s; intervals := intervals s; timeouts := timeouts s;
    listening := listening s; productsList := productsList s; totalProducts := totalProducts s;
    activeProducts := v; notificationsSent := notificationsSent s; monitoringStatus := monitoringStatus s;
    logsList := logsList s; shown := shown s; modal := modal s |}.

Definition with_notificationsSent v (s : state) : state :=
  {| heap := heap s; products := products s; monitoringActive := monitoringActive s;
    monitoringInterval := monitoringInterval s; intervals := intervals s; timeouts := timeouts s;
    listening := listening s; productsList := productsList s; totalProducts := totalProducts s;
    activeProducts := activeProducts s; notificationsSent := v; monitoringStatus := monitoringStatus s;
    logsList := logsList s; shown := shown s; modal := modal s |}.

Definition with_monitoringStatus v (s : state) : state :=
  {| heap := heap s; products := products s; monitoringActive := monitoringActive s;
    monitoringInterval := monitoringInterval s; intervals := intervals s; timeouts := timeouts s;
    listening := listening s; productsList := productsList s; totalProducts := totalProducts s;
    activeProducts := activeProducts s; notificationsSent := notificationsSent s; monitoringStatus := v;
    logsList := logsList s; shown := shown s; modal := modal s |}.

Definition with_logsList v (s : state) : state :=
  {| heap := heap s; products := products s; monitoringActive := monitoringActive s;
    monitoringInterval := monitoringInterval s; intervals := intervals s; timeouts := timeouts s;
    listening := listening s; productsList := productsList s; totalProducts := totalProducts s;
    activeProducts := activeProducts s; notificationsSent := notificationsSent s; monitoringStatus := monitoringStatus s;
    logsList := v; shown := shown s; modal := modal s |}.

Definition with_shown v (s : state) : state :=
  {| heap := heap s; products := products s; monitoringActive := monitoringActive s;
    monitoringInterval := monitoringInterval s; intervals := intervals s; timeouts := timeouts s;
    listening := listening s; productsList := productsList s; totalProducts := totalProducts s;
    activeProducts := activeProducts s; notificationsSent := notificationsSent s; monitoringStatus := monitoringStatus s;
    logsList := logsList s; shown := v; modal := modal s |}.

Definition with_modal v (s : state) : state :=
  {| heap := heap s; products := products s; monitoringActive := monitoringActive s;
    monitoringInterval := monitoringInterval s; intervals := intervals s; timeouts := timeouts s;
    listening := listening s; productsList := productsList s; totalProducts := totalProducts s;
    activeProducts := activeProducts s; notificationsSent := notificationsSent s; monitoringStatus := monitoringStatus s;
    logsList := logsList s; shown := shown s; modal := v |}.

(** *** Sample data and the page as served *)

Definition sampleProducts : list product :=
  [ {| id := 1;
       name := lit "MacBook Pro M1";
       url := lit "https://www.amazon.in/Apple-MacBook-Chip-13-inch-512GB/dp/B08N5WRWNW";
       selector := lit ".a-color-price";
       expectedText := lit "Currently unavailable";
       email := lit "user@example.com";
       isActive := true;
       lastChecked := Some (lit "2024-01-15 14:25:00");
       createdAt := lit "2024-01-15 10:00:00" |};
    {| id := 2;
       name := lit "Google Test";
       url := lit "https://www.google.com";
       selector := lit "title";
       expectedText := lit "NonExistentText";
       email := lit "user@example.com";
       isActive := false;
       lastChecked := Some (lit "2024-01-15 14:20:00");
       createdAt := lit "2024-01-15 12:00:00" |} ].

Definition servedLogs : list logEntry :=
  [ {| logTime := lit "2024-01-15 14:30:25";
       logMessage := lit "Bot initialized successfully" |};
    {| logTime := lit "2024-01-15 14:30:26";
       logMessage := lit "Database connection established" |};
    {| logTime := lit "2024-01-15 14:30:27";
       logMessage := lit "Ready to monitor products" |} ].

(** The state once the script has been evaluated: the sample array, the
    one-second timeout of the last lines, and the page of
    [templates/dashboard.html]. *)
Definition init : state :=
  {| heap := sampleProducts;
     products := [0; 1];
     monitoringActive := false;
     monitoringInterval := None;
     intervals := ∅;
     timeouts := [InitialLogs];
     listening := false;
     productsList := [];
     totalProducts := 0;
     activeProducts := 0;
     notificationsSent := 0;
     monitoringStatus := (lit "Stopped", "");
     logsList := servedLogs;
     shown := [];
     modal := (false, None) |}.

(** *** Helpers of the script *)

(** [new Date().toISOString().slice(0, 19).replace('T', ' ')] *)
Definition timestamp (now : jsstring) : jsstring :=
  replace_first 84 32 (slice0 19 now).

(** The objects the array refers to, in array order. *)
Definition objects (s : state) : list product :=
  omap (fun l => heap s !! l) (products s).

Definition is_active (s : state) (l : nat) : bool :=
  from_option isActive false (heap s !! l).

Definition has_id (s : state) (productId : Z) (l : nat) : bool :=
  from_option (fun p => (id p =? productId)%Z) false (heap s !! l).

(** [products.find(p => p.id === productId)] *)
Definition find_product (s : state) (productId : Z) : option nat :=
  List.find (has_id s productId) (products s).

(** The body of [showNotification]; the trace [shown] keeps every
    notification put on the page. *)
Definition showNotification (message : jsstring) (type : string)
    (s : state) : state :=
  with_shown (shown s ++ [(message, type)]) s.

(** [while (logsList.children.length > 20) logsList.removeChild(logsList.lastChild)],
    for at most [fuel] rounds.  The list is the element children of
    [logsList]; white-space text nodes of the served page, which the loop
    removes on its way, are left out. *)
Fixpoint keepRecent (fuel : nat) (children : list logEntry) : list logEntry :=
  match fuel with
  | 0 => children
  | S fuel' =>
      if 20 <? length children
      then keepRecent fuel' (removelast children)
      else children
  end.

Definition addLogEntry (now : jsstring) (message : jsstring)
    (s : state) : state :=
  let logEntry := {| logTime := timestamp now; logMessage := message |} in
  let children := logEntry :: logsList s in
  with_logsList (keepRecent (length children) children) s.

Definition loadProducts (s : state) : state :=
  with_productsList (objects s) s.

Definition updateStats (s : state) : state :=
  let totalProducts := length (products s) in
  let activeProducts := length (List.filter (is_active s) (products s)) in
  let notificationsSent :=
    length (List.filter (fun l => negb (is_active s l)) (products s)) in
  with_notificationsSent notificationsSent
    (with_activeProducts activeProducts
      (with_totalProducts totalProducts s)).

(** *** Handlers *)

Definition addProduct (f : form) (now_ms : Z) (now : jsstring)
    (s : state) : state :=
  let newProduct :=
    {| id := now_ms;
       name := productName f;
       url := productUrl f;
       selector := productSelector f;
       expectedText := expectedTextField f;
       email := productEmail f;
       isActive := true;
       lastChecked := None;
       createdAt := timestamp now |} in
  let s := with_products (products s ++ [length (heap s)])
             (with_heap (heap s ++ [newProduct]) s) in
  showNotification (lit "Product added successfully!") "success"
    (updateStats (loadProducts s)).

Definition testProduct (productId : Z) (s : state) : state :=
  match find_product s productId with
  | None => s
  | Some l =>
      let pname := from_option name [] (heap s !! l) in
      with_timeouts (timeouts s ++ [TestResult l])
        (showNotification (lit "Testing " ++ pname ++ lit "...") "info" s)
  end.

(** [Math.random() > 0.5] *)
Definition drawInStock (r : Q) : bool :=
  match (r ?= 1 # 2)%Q with Gt => true | _ => false end.

(** The surrogate pairs of the emoji in the messages. *)
Definition partyPopper : jsstring := [55356; 57225]%N.
Definition greenCircle : jsstring := [55357; 57314]%N.
Definition redCircle : jsstring := [55357; 56628]%N.
Definition eMail : jsstring := [55357; 56551]%N.

(** The callback of [testProduct], two seconds later, on the object [l]
    it closed over. *)
Definition testProductDone (l : nat) (r : Q) (now1 now2 : jsstring)
    (s : state) : state :=
  let pname := from_option name [] (heap s !! l) in
  let isInStock := drawInStock r in
  let message :=
    if isInStock
    then pname ++ lit " is IN STOCK! " ++ partyPopper
    else pname ++ lit " is out of stock." in
  let s := showNotification message (if isInStock then "success" else "info") s in
  let s := addLogEntry now1
             (lit "Tested " ++ pname ++ lit ": "
              ++ (if isInStock then lit "IN STOCK" else lit "OUT OF STOCK")) s in
  let s := with_heap (alter (set_lastChecked (timestamp now2)) l (heap s)) s in
  loadProducts s.

Definition viewProduct (productId : Z) (s : state) : state :=
  match find_product s productId with
  | None => s
  | Some l => with_modal (true, heap s !! l) s
  end.

Definition deleteProduct (productId : Z) (confirmed : bool)
    (s : state) : state :=
  if confirmed
  then
    let s := with_products
               (List.filter (fun l => negb (has_id s productId l)) (products s)) s in
    showNotification (lit "Product deleted successfully!") "success"
      (updateStats (loadProducts s))
  else s.

(** [setInterval] hands out [timer]. *)
Definition startMonitoring (now : jsstring) (timer : positive)
    (s : state) : state :=
  if monitoringActive s then s
  else
    let s := with_monitoringActive true s in
    let s := with_monitoringStatus (greenCircle ++ lit " Running", "#27ae60") s in
    let s := showNotification (lit "Monitoring started!") "success" s in
    let s := addLogEntry now (lit "Bot monitoring started") s in
    with_monitoringInterval (Some timer)
      (with_intervals ({[timer]} ∪ intervals s) s).

(** *** Numbers

    A JavaScript number is a binary64 value.  The finite ones are the
    rationals [m * 2^e] with [|m| < 2^53] and [-1074 <= e <= 971]; the
    result of an arithmetic operation is the exact result rounded to the
    nearest of them, to the one with an even significand when two are
    equally near. *)

(** [2^e], for any integer [e]. *)
Definition pow2 (e : Z) : Q :=
  if (0 <=? e)%Z then inject_Z (2 ^ e) else 1 # Z.to_pos (2 ^ (- e)).

(** The [e] with [2^e <= x < 2^(e+1)], for a positive [x]. *)
Definition exponent (x : Q) : Z :=
  let d := (Z.log2 (Qnum x) - Z.log2 (Zpos (Qden x)))%Z in
  if Qle_bool (pow2 d) x then d else (d - 1)%Z.

(** The nearest integer, the even one at a tie. *)
Definition nearest_even (q : Q) : Z :=
  let f := Qfloor q in
  match (q - inject_Z f ?= 1 # 2)%Q with
  | Lt => f
  | Gt => (f + 1)%Z
  | Eq => if Z.even f then f else (f + 1)%Z
  end.

(** The binary64 value nearest to [x]: a multiple of the unit in the last
    place of [x], [2^(e - 52)] for the exponent [e] of [x], and of
    [2^(-1074)] below the normal range.  The numbers of the script stay far
    below the largest finite value, so no overflow is modelled. *)
Definition round64 (x : Q) : Q :=
  match Qnum x with
  | Z0 => 0%Q
  | Zpos _ =>
      let e := Z.max (exponent x) (-1022) in
      (inject_Z (nearest_even (x * pow2 (52 - e))) * pow2 (e - 52))%Q
  | Zneg _ =>
      let e := Z.max (exponent (- x)) (-1022) in
      (- (inject_Z (nearest_even (- x * pow2 (52 - e))) * pow2 (e - 52)))%Q
  end.

(** The value of a finite float of the machine, which computes in
    binary64. *)
Definition machine_value (f : PrimFloat.float) : option Q :=
  match FloatOps.Prim2SF f with
  | SpecFloat.S754_zero _ => Some 0%Q
  | SpecFloat.S754_finite s m e =>
      Some ((if s then - inject_Z (Zpos m) else inject_Z (Zpos m)) * pow2 e)%Q
  | _ => None
  end.

(** [round64] gives what the machine gives for [m * 2^e * n], for
    integers [m] and [n] below [2^53] and [-1074 <= e <= 0]. *)
Definition agrees_with_machine (m e n : Z) : bool :=
  let of_Z z := PrimFloat.of_uint63 (Uint63.of_Z z) in
  let r := PrimFloat.ldshiftexp (of_Z m) (Uint63.of_Z (e + 2101)) in
  match machine_value r, machine_value (PrimFloat.mul r (of_Z n)) with
  | Some vr, Some v =>
      Qeq_bool vr (inject_Z m * pow2 e)
      && Qeq_bool v (round64 (inject_Z m * pow2 e * inject_Z n))
  | _, _ => false
  end.

(** [x] is a finite binary64 value. *)
Definition is_binary64 (x : Q) : Prop :=
  exists m e : Z,
    (Z.abs m < 2 ^ 53)%Z /\ (-1074 <= e <= 971)%Z
    /\ (x == inject_Z m * pow2 e)%Q.

(** [Math.floor(Math.random() * n)]: the product is a binary64
    multiplication, rounded before the floor is taken. *)
Definition randomIndex (r : Q) (n : nat) : Z :=
  Qfloor (round64 (r * inject_Z (Z.of_nat n))).

(** [a[i]] for a number [i]: [undefined] outside the array. *)
Definition at_index {A} (a : list A) (i : Z) : option A :=
  if (i <? 0)%Z then None else a !! Z.to_nat i.

(** [activeProducts[Math.floor(Math.random() * activeProducts.length)]],
    when there is an active product. *)
Definition pickProduct (r : Q) (s : state) : option nat :=
  let activeProducts := List.filter (is_active s) (products s) in
  if 0 <? length activeProducts
  then at_index activeProducts (randomIndex r (length activeProducts))
  else None.

(** The callback of [setInterval], every ten seconds.  A [product] that is
    [undefined] throws at [product.name], before anything is written. *)
Definition monitoringTick (r : Q) (now1 now2 : jsstring) (s : state) : state :=
  match pickProduct r s with
  | None => s
  | Some l =>
      let pname := from_option name [] (heap s !! l) in
      let s := addLogEntry now1
                 (lit "Checked " ++ pname ++ lit ": OUT OF STOCK") s in
      let s := with_heap (alter (set_lastChecked (timestamp now2)) l (heap s)) s in
      loadProducts s
  end.

Definition stopMonitoring (now : jsstring) (s : state) : state :=
  if negb (monitoringActive s) then s
  else
    let s := with_monitoringActive false s in
    let s := with_monitoringStatus (redCircle ++ lit " Stopped", "#e74c3c") s in
    let s :=
      match monitoringInterval s with
      | Some timer => with_intervals (intervals s ∖ {[timer]}) s
      | None => s
      end in
    let s := showNotification (lit "Monitoring stopped!") "info" s in
    addLogEntry now (lit "Bot monitoring stopped") s.

Definition testEmail (s : state) : state :=
  with_timeouts (timeouts s ++ [EmailResult])
    (showNotification (lit "Sending test email...") "info" s).

Definition testEmailDone (now : jsstring) (s : state) : state :=
  addLogEntry now (lit "Test email sent successfully")
    (showNotification (lit "Test email sent successfully! " ++ eMail) "success" s).

Definition closeModal (s : state) : state :=
  with_modal (false, snd (modal s)) s.

(** The [DOMContentLoaded] listener. *)
Definition onLoad (s : state) : state :=
  with_listening true (updateStats (loadProducts s)).

(** The timeout of the last lines of the script. *)
Definition initialLogs (now1 now2 : jsstring) (s : state) : state :=
  addLogEntry now2 (lit "Ready to monitor products")
    (addLogEntry now1 (lit "Dashboard loaded successfully") s).

(** *** The event loop *)

Inductive event :=
| DOMContentLoaded
| SubmitAddProduct (f : form) (now_ms : Z) (now : jsstring)
| ClickTest (productId : Z)
| ClickView (productId : Z)
| ClickDelete (productId : Z) (confirmed : bool)
| ClickStart (now : jsstring) (timer : positive)
| ClickStop (now : jsstring)
| ClickTestEmail
| ClickClose
| TimeoutFires (k : nat) (r : Q) (now1 now2 : jsstring)
| IntervalFires (timer : positive) (r : Q) (now1 now2 : jsstring).

(** [Math.random()] is at least 0 and less than 1. *)
Definition is_draw (r : Q) : Prop := (0 <= r)%Q /\ (r < 1)%Q.

(** When the browser can deliver an event: listeners and rows exist once
    the page has loaded, [setInterval] hands out a timer that is not in
    use, a timeout fires once, an interval fires while it is live. *)
Definition enabled (s : state) (e : event) : Prop :=
  match e with
  | DOMContentLoaded => listening s = false
  | SubmitAddProduct _ _ _ | ClickTest _ | ClickView _ | ClickDelete _ _
  | ClickStop _ | ClickTestEmail | ClickClose => listening s = true
  | ClickStart _ timer => listening s = true /\ timer ∉ intervals s
  | TimeoutFires k r _ _ => k < length (timeouts s) /\ is_draw r
  | IntervalFires timer r _ _ => timer ∈ intervals s /\ is_draw r
  end.

Definition runCallback (c : callback) (r : Q) (now1 now2 : jsstring)
    (s : state) : state :=
  match c with
  | InitialLogs => initialLogs now1 now2 s
  | TestResult l => testProductDone l r now1 now2 s
  | EmailResult => testEmailDone now1 s
  end.

Definition handle (e : event) (s : state) : state :=
  match e with
  | DOMContentLoaded => onLoad s
  | SubmitAddProduct f now_ms now => addProduct f now_ms now s
  | ClickTest productId => testProduct productId s
  | ClickView productId => viewProduct productId s
  | ClickDelete productId confirmed => deleteProduct productId confirmed s
  | ClickStart now timer => startMonitoring now timer s
  | ClickStop now => stopMonitoring now s
  | ClickTestEmail => testEmail s
  | ClickClose => closeModal s
  | TimeoutFires k r now1 now2 =>
      match timeouts s !! k with
      | Some c => runCallback c r now1 now2 (with_timeouts (delete k (timeouts s)) s)
      | None => s
      end
  | IntervalFires _ r now1 now2 => monitoringTick r now1 now2 s
  end.

Inductive step (s : state) : state -> Prop :=
| step_event e : enabled s e -> step s (handle e s).

(** The states of the page, from the evaluation of the script on. *)
Inductive reachable : state -> Prop :=
| reachable_init : reachable init
| reachable_step s s' : reachable s -> step s s' -> reachable s'.

(** Running the events of a list, in order. *)
Fixpoint run (es : list event) (s : state) : state :=
  match es with
  | [] => s
  | e :: es' => run es' (handle e s)
  end.

(** Every event of the list can be delivered when its turn comes. *)
Fixpoint deliverable (es : list event) (s : state) : Prop :=
  match es with
  | [] => True
  | e :: es' => enabled s e /\ deliverable es' (handle e s)
  end.

(** An object without its [lastChecked]. *)
Definition forget_lastChecked (p : product) : product :=
  {| id := id p; name := name p; url := url p; selector := selector p;
     expectedText := expectedText p; email := email p;
     isActive := isActive p; lastChecked := None;
     createdAt := createdAt p |}.

(** What is left of a state when the record of the checks is taken away:
    the log, the notifications shown, the rendered rows and the
    [lastChecked] fields. *)
Definition outside_check (s : state) : state :=
  with_heap (map forget_lastChecked (heap s))
    (with_productsList []
      (with_logsList [] (with_shown [] s))).

(** The entry a check writes to the log. *)
Definition checkRecord (s : state) : option jsstring :=
  logMessage <$> head (logsList s).

(** The invariant of the page: the array refers to objects of the heap,
    each once; so do the waiting callbacks; the live timers are the one
    of [monitoringInterval] while monitoring runs and none otherwise; the
    log holds at most twenty entries; once loaded, the three counters show
    what [updateStats] computes. *)
Record invariant (s : state) : Prop := {
  inv_refs : forall l, l ∈ products s -> l < length (heap s);
  inv_nodup : NoDup (products s);
  inv_callbacks : forall l, TestResult l ∈ timeouts s -> l < length (heap s);
  inv_running :
    monitoringActive s = true ->
    exists timer, monitoringInterval s = Some timer /\ intervals s = {[timer]};
  inv_stopped : monitoringActive s = false -> intervals s = ∅;
  inv_log : length (logsList s) <= 20;
  inv_stats :
    listening s = true ->
    totalProducts s = length (products s)
    /\ activeProducts s = length (List.filter (is_active s) (products s))
    /\ notificationsSent s
       = length (List.filter (fun l => negb (is_active s l)) (products s))
}.

(** The heap [h'] still holds every object of [h], the same but for
    [lastChecked]. *)
Definition heap_extends (h h' : list product) : Prop :=
  forall l p, h !! l = Some p ->
    exists p', h' !! l = Some p' /\ forget_lastChecked p' = forget_lastChecked p.

End Demo.

(** ** The monitoring engine behind the API

    The evaluator and the per-product state machine run in the Python
    back-end, which the front-ends only call over HTTP.  They are modelled
    here from the specification (sections 3, 4.2, 4.3 and 4.5). *)

Module Engine.
Import JS.

Definition text := list N.

(** Modelled from the spec: what the Extractor of the back-end returns
    (section 4.1), a text or "not found". *)
Inductive extraction :=
| NotFound
| Found (t : text).

(** Modelled from the spec: the outcomes of a CheckResult (section 3). *)
Inductive outcome :=
| InStock
| OutOfStock
| FetchFailed
| ExtractFailed.

(** Modelled from the spec: the lifecycle states of a Product of the
    back-end (section 3). *)
Inductive lifecycle :=
| Active
| Suspended.

#[global] Instance outcome_eq_dec : EqDecision outcome.
Proof. solve_decision. Defined.

#[global] Instance lifecycle_eq_dec : EqDecision lifecycle.
Proof. solve_decision. Defined.

Section Evaluator.
(** Which characters count as white space. *)
Variable ws : N -> bool.

(** Modelled from the spec: the StockEvaluator of section 4.2, whose code
    is not part of the front-end sources.  [NotFound] is an extraction
    failure; otherwise the trimmed text is compared, character for
    character, with the marker. *)
Definition evaluate (extracted : extraction) (unavailable_marker : text)
  : outcome :=
  match extracted with
  | NotFound => ExtractFailed
  | Found t =>
      if bool_decide (trim_with ws t = unavailable_marker)
      then OutOfStock
      else InStock
  end.

(** [u] is [t] without its leading and trailing white space. *)
Definition trimmed_to (t u : text) : Prop :=
  exists pre post,
    t = pre ++ u ++ post
    /\ Forall (fun c => ws c = true) pre
    /\ Forall (fun c => ws c = true) post
    /\ (forall c, head u = Some c -> ws c = false)
    /\ (forall c, last u = Some c -> ws c = false).
End Evaluator.

(** Modelled from the spec: the CheckResult of the back-end (section 3). *)
Record CheckResult := {
  result : outcome;
  product_id : Z;
  timestamp : Z;
  diagnostic : option text
}.

(** Modelled from the spec: the engine's view of a Product (section 3),
    whose record lives in the back-end store; the fields no transition
    reads are left out. *)
Record product := {
  state : lifecycle;
  notification_target : text;
  last_checked_at : option Z;
  last_error : option text
}.

(** Modelled from the spec: what the Notifier of the back-end is asked to
    send (section 4.5). *)
Record notification := {
  about : Z;
  sent_to : text;
  sent_at : Z
}.

(** Modelled from the spec: the ProductState machine of the back-end,
    the transitions of section 4.3 for one product with the notifications
    they enqueue.  A result that arrives for a product that is no longer
    [Active] changes nothing. *)
Definition on_check (r : CheckResult) (p : product)
  : product * list notification :=
  match state p with
  | Suspended => (p, [])
  | Active =>
      match result r with
      | InStock =>
          ({| state := Suspended;
              notification_target := notification_target p;
              last_checked_at := Some (timestamp r);
              last_error := last_error p |},
           [{| about := product_id r;
               sent_to := notification_target p;
               sent_at := timestamp r |}])
      | OutOfStock =>
          ({| state := Active;
              notification_target := notification_target p;
              last_checked_at := Some (timestamp r);
              last_error := last_error p |}, [])
      | FetchFailed | ExtractFailed =>
          ({| state := Active;
              notification_target := notification_target p;
              last_checked_at := Some (timestamp r);
              last_error := diagnostic r |}, [])
      end
  end.

(** Modelled from the spec: external deactivation (section 4.3) of a
    product of the back-end, a manual stop without notification. *)
Definition suspend (p : product) : product :=
  {| state := Suspended;
     notification_target := notification_target p;
     last_checked_at := last_checked_at p;
     last_error := last_error p |}.

(** Modelled from the spec: the product store of the back-end and the
    notifications handed to the channel, in order. *)
Record engine := {
  store : gmap Z product;
  outbox : list notification
}.

(** What reaches the state machine: a check result of the Scheduler or an
    external deactivation. *)
Inductive input :=
| Result (r : CheckResult)
| Deactivate (id : Z).

(** Modelled from the spec: applying one check result to the product
    store of the back-end ([apply_transition], section 6) and handing the
    notification to the channel (section 4.5). *)
Definition deliver (r : CheckResult) (e : engine) : engine :=
  match store e !! product_id r with
  | None => e
  | Some p =>
      let '(p', ns) := on_check r p in
      {| store := <[product_id r := p']> (store e);
         outbox := outbox e ++ ns |}
  end.

(** Modelled from the spec: [deactivate(product_id)] of the back-end
    store. *)
Definition deactivate (id : Z) (e : engine) : engine :=
  {| store := alter suspend id (store e); outbox := outbox e |}.

Definition handle (i : input) (e : engine) : engine :=
  match i with
  | Result r => deliver r e
  | Deactivate id => deactivate id e
  end.

Fixpoint run (ins : list input) (e : engine) : engine :=
  match ins with
  | [] => e
  | i :: ins' => run ins' (handle i e)
  end.

Definition lifecycle_of (e : engine) (id : Z) : option lifecycle :=
  state <$> store e !! id.

(** The notifications about product [id]. *)
Definition notifications_for (id : Z) (e : engine) : list notification :=
  List.filter (fun n => (about n =? id)%Z) (outbox e).

(** Whether input [i] takes product [id] through a restock transition:
    an [InStock] result for it that finds it [Active] and leaves it
    [Suspended]. *)
Definition is_restock (id : Z) (i : input) (e : engine) : bool :=
  match i with
  | Result r =>
      bool_decide (product_id r = id /\ result r = InStock
                   /\ lifecycle_of e id = Some Active
                   /\ lifecycle_of (handle i e) id = Some Suspended)
  | Deactivate _ => false
  end.

(** The number of restock transitions of [id] along a run. *)
Fixpoint restocks (id : Z) (ins : list input) (e : engine) : nat :=
  match ins with
  | [] => 0
  | i :: ins' =>
      (if is_restock id i e then 1 else 0) + restocks id ins' (handle i e)
  end.

End Engine.

(** ** More of the API-backed dashboard

    The helpers of [RestockDashboard] around the form: the class of a log
    line, the shortening of a URL, and the deactivation of a product. *)

Module DashboardView.
Import JS Dashboard.

(** [s] holds [pat] somewhere. *)
Definition contains (pat s : jsstring) : Prop :=
  exists pre post, s = pre ++ pat ++ post.

(** The number of [c] in [s]. *)
Definition occurrences (c : N) (s : jsstring) : nat :=
  length (List.filter (fun d => (d =? c)%N) s).

(** [truncateUrl(url, maxLength)]; [renderProducts] calls it with the
    default, 50. *)
Definition truncateUrl (url : jsstring) (maxLength : nat) : jsstring :=
  if maxLength <? length url
  then take maxLength url ++ lit "..."
  else url.

Definition is_notification (e : effect) : bool :=
  match e with
  | ShowNotification _ _ => true
  | _ => false
  end.

(** What [deactivateProduct] does, in order: the [DELETE] request for a
    product, or something on the page. *)
Inductive action :=
| DeleteRequest (productId : Z)
| OnPage (e : effect).

(** [confirmed] is the answer to [confirm(...)]; [server] what comes back
    from [fetch] and [response.json()]. *)
Definition deactivateProduct (productId : Z) (confirmed : bool)
    (server : Z -> response) : list action :=
  if negb confirmed then []
  else
    DeleteRequest productId
    :: match server productId with
       | ResponseOk message =>
           [OnPage (ShowNotification message "success"); OnPage LoadData]
       | ResponseNotOk detail =>
           [OnPage (ShowNotification
                      (or_else detail (lit "Error deactivating product"))
                      "error")]
       | RequestFailed =>
           [OnPage ConsoleError;
            OnPage (ShowNotification (lit "Error deactivating product") "error")]
       end.

Definition is_request (a : action) : bool :=
  match a with
  | DeleteRequest _ => true
  | OnPage _ => false
  end.

Definition is_toast (a : action) : bool :=
  match a with
  | OnPage (ShowNotification _ _) => true
  | _ => false
  end.

End DashboardView.

(** ** More about the demo page *)

Module DemoView.
Import JS Demo.

(** The rendered rows are those of the array: once the page has loaded,
    [productsList] shows the objects the array refers to as they are now;
    before that, no check of a product is waiting. *)
Definition rows_current (s : state) : Prop :=
  (listening s = true -> productsList s = objects s)
  /\ (listening s = false -> forall l, TestResult l ∉ timeouts s).

End DemoView.

(** * Properties *)

(** ** Trimming *)

Section TrimFacts.
Import JS.
Context {A : Type} (ws : A -> bool).

Lemma trimStart_with_split (s : list A) :
  exists pre,
    s = pre ++ trimStart_with ws s
    /\ Forall (fun c => ws c = true) pre
    /\ (forall c, head (trimStart_with ws s) = Some c -> ws c = false).
Proof.
  induction s as [|c s IH]; simpl.
  - exists []. repeat split; [constructor | intros c; discriminate].
  - destruct (ws c) eqn:Hc.
    + destruct IH as (pre & Heq & Hpre & Hhd).
      exists (c :: pre). repeat split; [simpl; congruence | by constructor | done].
    + exists []. repeat split; [constructor |].
      intros d [= <-]. exact Hc.
Qed.

Lemma trimStart_with_fixed (s : list A) :
  (forall c, head s = Some c -> ws c = false) -> trimStart_with ws s = s.
Proof.
  destruct s as [|c s]; simpl; [done |].
  intros H. by rewrite (H c).
Qed.

Lemma trimStart_with_app_space (pre s : list A) :
  Forall (fun c => ws c = true) pre ->
  trimStart_with ws (pre ++ s) = trimStart_with ws s.
Proof.
  induction 1 as [|c pre Hc _ IH]; simpl; [done |]. by rewrite Hc.
Qed.

Lemma trimStart_with_nonempty_app (u post : list A) :
  (forall c, head u = Some c -> ws c = false) -> u <> [] ->
  trimStart_with ws (u ++ post) = u ++ post.
Proof.
  intros Hhd Hne. apply trimStart_with_fixed.
  destruct u as [|c u]; [done |]. exact Hhd.
Qed.

Lemma last_rev (s : list A) : last (rev s) = head s.
Proof. rewrite rev_alt. apply last_reverse. Qed.

Lemma head_rev (s : list A) : head (rev s) = last s.
Proof. rewrite rev_alt. apply head_reverse. Qed.

Lemma trimEnd_with_split (s : list A) :
  exists post,
    s = trimEnd_with ws s ++ post
    /\ Forall (fun c => ws c = true) post
    /\ (forall c, last (trimEnd_with ws s) = Some c -> ws c = false).
Proof.
  unfold trimEnd_with.
  destruct (trimStart_with_split (rev s)) as (pre & Heq & Hpre & Hhd).
  exists (rev pre). repeat split.
  - rewrite <- rev_app_distr, <- Heq. by rewrite rev_involutive.
  - by apply Forall_rev.
  - intros c. rewrite last_rev. apply Hhd.
Qed.

Lemma trimEnd_with_app_space (u post : list A) :
  Forall (fun c => ws c = true) post ->
  trimEnd_with ws (u ++ post) = trimEnd_with ws u.
Proof.
  intros Hpost. unfold trimEnd_with.
  rewrite rev_app_distr, trimStart_with_app_space; [done |].
  by apply Forall_rev.
Qed.

Lemma trimEnd_with_fixed (u : list A) :
  (forall c, last u = Some c -> ws c = false) -> trimEnd_with ws u = u.
Proof.
  intros H. unfold trimEnd_with.
  rewrite trimStart_with_fixed; [apply rev_involutive |].
  intros c. rewrite head_rev. apply H.
Qed.

Lemma trimEnd_with_head (s : list A) c :
  head (trimEnd_with ws s) = Some c -> head s = Some c.
Proof.
  destruct (trimEnd_with_split s) as (post & Heq & _ & _).
  intros H. rewrite Heq.
  destruct (trimEnd_with ws s); [done |]. exact H.
Qed.

(** What [trim] returns is the text between the leading and the trailing
    white space. *)
Lemma trim_with_split (s : list A) :
  exists pre post,
    s = pre ++ trim_with ws s ++ post
    /\ Forall (fun c => ws c = true) pre
    /\ Forall (fun c => ws c = true) post
    /\ (forall c, head (trim_with ws s) = Some c -> ws c = false)
    /\ (forall c, last (trim_with ws s) = Some c -> ws c = false).
Proof.
  unfold trim_with.
  destruct (trimStart_with_split s) as (pre & Heq & Hpre & Hhd).
  destruct (trimEnd_with_split (trimStart_with ws s))
    as (post & Heq' & Hpost & Hlast).
  exists pre, post. repeat split; try done.
  - by rewrite <- Heq'.
  - intros c Hc. apply Hhd. by apply trimEnd_with_head.
Qed.

(** And it is the only such text. *)
Lemma trim_with_unique (pre u post : list A) :
  Forall (fun c => ws c = true) pre ->
  Forall (fun c => ws c = true) post ->
  (forall c, head u = Some c -> ws c = false) ->
  (forall c, last u = Some c -> ws c = false) ->
  trim_with ws (pre ++ u ++ post) = u.
Proof.
  intros Hpre Hpost Hhd Hlast. unfold trim_with.
  rewrite trimStart_with_app_space by done.
  destruct u as [|c u].
  - simpl. clear Hhd Hlast. induction Hpost as [|d post Hd _ IH]; simpl.
    + done.
    + by rewrite Hd.
  - rewrite trimStart_with_nonempty_app by done.
    rewrite trimEnd_with_app_space by done.
    by apply trimEnd_with_fixed.
Qed.

Lemma trim_with_idempotent (s : list A) :
  trim_with ws (trim_with ws s) = trim_with ws s.
Proof.
  destruct (trim_with_split s) as (pre & post & _ & _ & _ & Hhd & Hlast).
  pose proof (trim_with_unique [] (trim_with ws s) [] (List.Forall_nil _)
                (List.Forall_nil _) Hhd Hlast) as H.
  simpl in H. by rewrite app_nil_r in H.
Qed.
End TrimFacts.

(** ** The matcher decides the patterns *)

Section RegexFacts.
Import Regex.

Lemma nullable_matches r : nullable r = true <-> matches r [].
Proof.
  split.
  - induction r; simpl; intros H; try discriminate.
    + constructor.
    + apply andb_true_iff in H as [H1 H2].
      change (@nil N) with (@nil N ++ []). constructor; auto.
    + apply orb_true_iff in H as [H|H]; [apply MAltL | apply MAltR]; auto.
    + constructor.
  - intros H. remember [] as s eqn:Hs.
    induction H; simpl; try done.
    + apply app_eq_nil in Hs as [-> ->]. rewrite IHmatches1, IHmatches2; done.
    + rewrite IHmatches; done.
    + rewrite IHmatches; [apply orb_true_r | done].
Qed.

Lemma matches_deriv c r s : matches r (c :: s) -> matches (deriv c r) s.
Proof.
  intros H. remember (c :: s) as s0 eqn:Hs0.
  revert s Hs0. induction H; intros s' Hs0; simpl; try discriminate.
  - injection Hs0 as -> <-. rewrite H. constructor.
  - destruct s1 as [|d s1]; simpl in Hs0.
    + subst s2. apply nullable_matches in H. rewrite H.
      apply MAltR. by apply IHmatches2.
    + injection Hs0 as -> <-.
      assert (matches (Seq (deriv c r1) r2) (s1 ++ s2)) as Hseq
        by (constructor; [by apply IHmatches1 | done]).
      destruct (nullable r1); [by apply MAltL | done].
  - apply MAltL. by apply IHmatches.
  - apply MAltR. by apply IHmatches.
  - destruct s1 as [|d s1]; simpl in Hs0.
    + by apply IHmatches2.
    + injection Hs0 as -> <-. constructor; [by apply IHmatches1 | done].
Qed.

Lemma deriv_matches c r s : matches (deriv c r) s -> matches r (c :: s).
Proof.
  revert s. induction r; simpl; intros s H.
  - inversion H.
  - inversion H.
  - destruct (f c) eqn:Hf; inversion H; subst. by constructor.
  - assert (forall t, matches (Seq (deriv c r1) r2) t -> matches (Seq r1 r2) (c :: t))
      as Hseq.
    { intros t Ht. inversion Ht; subst.
      change (c :: s1 ++ s2) with ((c :: s1) ++ s2). constructor; auto. }
    destruct (nullable r1) eqn:Hn; [| by apply Hseq].
    inversion H; subst; [by apply Hseq |].
    change (c :: s) with ([] ++ c :: s).
    constructor; [by apply nullable_matches | auto].
  - inversion H; subst; [apply MAltL | apply MAltR]; auto.
  - inversion H; subst.
    change (c :: s1 ++ s2) with ((c :: s1) ++ s2). constructor; auto.
Qed.

(** Testing a string against an anchored pattern is matching it. *)
Lemma test_matches r s : test r s = true <-> matches r s.
Proof.
  revert r. induction s as [|c s IH]; intros r; simpl.
  - apply nullable_matches.
  - rewrite IH. split; [apply deriv_matches | apply matches_deriv].
Qed.

Lemma matches_seq r1 r2 s :
  matches (Seq r1 r2) s <->
  exists s1 s2, s = s1 ++ s2 /\ matches r1 s1 /\ matches r2 s2.
Proof.
  split.
  - intros H. inversion H; subst. eauto.
  - intros (s1 & s2 & -> & H1 & H2). by constructor.
Qed.

Lemma matches_class f s :
  matches (Class f) s <-> exists c, s = [c] /\ f c = true.
Proof.
  split.
  - intros H. inversion H; subst. eauto.
  - intros (c & -> & Hc). by constructor.
Qed.

Lemma matches_chr c s : matches (Chr c) s <-> s = [c].
Proof.
  unfold Chr. rewrite matches_class. split.
  - intros (d & -> & Hd). apply N.eqb_eq in Hd. by subst.
  - intros ->. exists c. split; [done | apply N.eqb_refl].
Qed.

Lemma matches_star_class f s :
  matches (Star (Class f)) s <-> Forall (fun c => f c = true) s.
Proof.
  split.
  - intros H. remember (Star (Class f)) as r eqn:Hr.
    induction H; try discriminate.
    + constructor.
    + injection Hr as ->. inversion H; subst. simpl.
      constructor; [done | by apply IHmatches2].
  - induction 1 as [|c s Hc _ IH].
    + constructor.
    + change (c :: s) with ([c] ++ s). constructor; [by constructor | done].
Qed.

Lemma matches_plus_class f s :
  matches (Plus (Class f)) s <-> s <> [] /\ Forall (fun c => f c = true) s.
Proof.
  unfold Plus. rewrite matches_seq. split.
  - intros (s1 & s2 & -> & H1 & H2).
    apply matches_class in H1 as (c & -> & Hc).
    apply matches_star_class in H2. split; [done | by constructor].
  - intros [Hne H]. destruct H as [|c s Hc H]; [done |].
    exists [c], s. repeat split; [by constructor | by apply matches_star_class].
Qed.
End RegexFacts.

(** ** The add-product form of the API-backed dashboard *)

Section DashboardFacts.
Import JS Regex Dashboard.

Lemma notSpaceAt_spec c :
  notSpaceAt c = true <-> is_space c = false /\ c <> 64%N.
Proof.
  unfold notSpaceAt. rewrite negb_true_iff, orb_false_iff, N.eqb_neq. done.
Qed.

Lemma matches_plain s : matches (Plus (Class notSpaceAt)) s <-> plain s.
Proof.
  rewrite matches_plus_class. unfold plain.
  split; intros [Hne H]; (split; [done |]);
    eapply Forall_impl; try exact H; intros c; apply notSpaceAt_spec.
Qed.

(** The pattern of the form accepts exactly the well-formed addresses. *)
Lemma emailRegex_spec s :
  test emailRegex s = true <-> well_formed_email s.
Proof.
  rewrite test_matches. unfold emailRegex, well_formed_email.
  rewrite matches_seq. split.
  - intros (a & s1 & -> & Ha & H1).
    apply matches_seq in H1 as (x & s2 & -> & Hx & H2).
    apply matches_chr in Hx as ->.
    apply matches_seq in H2 as (b & s3 & -> & Hb & H3).
    apply matches_seq in H3 as (y & c & -> & Hy & Hc).
    apply matches_chr in Hy as ->.
    exists a, b, c. rewrite !matches_plain in *. done.
  - intros (a & b & c & -> & Ha & Hb & Hc).
    exists a, (64%N :: b ++ 46%N :: c). split; [done |].
    split; [by apply matches_plain |].
    apply matches_seq. exists [64%N], (b ++ 46%N :: c).
    split; [done |]. split; [by apply matches_chr |].
    apply matches_seq. exists b, (46%N :: c).
    split; [done |]. split; [by apply matches_plain |].
    apply matches_seq. exists [46%N], c.
    split; [done |]. split; [by apply matches_chr | by apply matches_plain].
Qed.

Lemma falsy_spec s : falsy s = false <-> s <> [].
Proof. destruct s; simpl; split; done. Qed.

Section Validation.
Variable URL_parses : jsstring -> bool.

(** The three checks of the handler pass exactly on acceptable
    requests. *)
Lemma checks_pass (d : productData) :
  (falsy (name d) || falsy (url d) || falsy (selector d)
   || falsy (expected_text d) || falsy (email d) = false
   /\ URL_parses (url d) = true
   /\ test emailRegex (email d) = true)
  <-> acceptable URL_parses d.
Proof.
  unfold acceptable.
  rewrite !orb_false_iff, !falsy_spec, emailRegex_spec. tauto.
Qed.

Lemma handleAddProduct_accepts f server :
  acceptable URL_parses (readForm f) ->
  exists after,
    handleAddProduct URL_parses f server
    = SubmitButton "Adding..." true :: PostProduct (readForm f) :: after.
Proof.
  intros H. apply checks_pass in H as (H1 & H2 & H3).
  unfold handleAddProduct. cbv zeta. rewrite H1, H2, H3. simpl. eauto.
Qed.

Lemma handleAddProduct_rejects f server :
  ~ acceptable URL_parses (readForm f) ->
  exists message,
    handleAddProduct URL_parses f server
    = [ShowNotification message "error"].
Proof.
  intros H. unfold handleAddProduct. cbv zeta.
  destruct (_ || _) eqn:H1; [eauto |].
  destruct (URL_parses _) eqn:H2; simpl; [| eauto].
  destruct (test emailRegex _) eqn:H3; simpl; [| eauto].
  destruct H. by apply checks_pass.
Qed.
End Validation.
End DashboardFacts.

Section CreationBoundary.
Import JS Regex Dashboard.
Variable URL_parses : jsstring -> bool.

Lemma acceptable_dec (d : productData) :
  acceptable URL_parses d \/ ~ acceptable URL_parses d.
Proof.
  destruct (falsy (name d) || falsy (url d) || falsy (selector d)
            || falsy (expected_text d) || falsy (email d)) eqn:H1;
    [right; intros H; apply checks_pass in H; destruct H; congruence |].
  destruct (URL_parses (url d)) eqn:H2;
    [| right; intros H; apply checks_pass in H; destruct H as (_ & ? & _); congruence].
  destruct (test emailRegex (email d)) eqn:H3;
    [| right; intros H; apply checks_pass in H; destruct H as (_ & _ & ?); congruence].
  left. by apply checks_pass.
Qed.

Lemma posted_body f server body :
  PostProduct body ∈ handleAddProduct URL_parses f server ->
  body = readForm f /\ acceptable URL_parses (readForm f).
Proof.
  intros Hin. destruct (acceptable_dec (readForm f)) as [Hok|Hbad].
  - split; [| done].
    destruct (handleAddProduct_accepts URL_parses f server Hok) as [after Heq].
    revert Hin. unfold handleAddProduct in *. cbv zeta in *.
    apply checks_pass in Hok as (H1 & H2 & H3). rewrite H1, H2, H3. simpl.
    destruct (server (readForm f)); simpl; intros Hin;
      repeat (apply elem_of_cons in Hin as [Hin|Hin];
              [first [discriminate | by injection Hin] |]);
      by apply elem_of_nil in Hin.
  - destruct (handleAddProduct_rejects URL_parses f server Hbad) as [m Heq].
    rewrite Heq in Hin. apply list_elem_of_singleton in Hin. discriminate.
Qed.
End CreationBoundary.

Section FormFields.
Import JS Regex Dashboard.
Variable URL_parses : jsstring -> bool.

(** [trim] returns what the field holds between the white space. *)
Lemma stripped_trim x u : stripped x u <-> trim x = u.
Proof.
  split.
  - intros (pre & post & -> & Hpre & Hpost & Hhd & Hlast).
    by apply trim_with_unique.
  - intros <-.
    destruct (trim_with_split is_space x)
      as (pre & post & Heq & Hpre & Hpost & Hhd & Hlast).
    by exists pre, post.
Qed.

Lemma blank_trim x : blank x <-> trim x = [].
Proof.
  split.
  - intros Hx.
    pose proof (trim_with_unique is_space x [] [] Hx (List.Forall_nil _)) as H.
    simpl in H. rewrite app_nil_r in H. by apply H.
  - intros Hx.
    destruct (trim_with_split is_space x) as (pre & post & Heq & Hpre & Hpost & _).
    unfold trim in Hx. rewrite Hx in Heq. simpl in Heq. rewrite Heq.
    by apply Forall_app.
Qed.

(** The request the handler reads off the form is the submission, and the
    only one. *)
Lemma submission_readForm f d : submission f d <-> d = readForm f.
Proof.
  unfold submission. rewrite !stripped_trim. destruct d. unfold readForm.
  simpl. split.
  - by intros (-> & -> & -> & -> & ->).
  - by intros [= -> -> -> -> ->].
Qed.

Lemma incomplete_readForm f :
  incomplete f
  <-> falsy (name (readForm f)) || falsy (url (readForm f))
      || falsy (selector (readForm f)) || falsy (expected_text (readForm f))
      || falsy (email (readForm f)) = true.
Proof.
  unfold incomplete. rewrite !blank_trim, !orb_true_iff. simpl.
  assert (forall x : jsstring, x = [] <-> falsy x = true) as H
    by (intros []; simpl; split; done).
  rewrite <- !H. tauto.
Qed.

Lemma handleAddProduct_incomplete f server :
  incomplete f ->
  handleAddProduct URL_parses f server
  = [ShowNotification (lit "Please fill in all fields") "error"].
Proof.
  intros H. apply incomplete_readForm in H.
  unfold handleAddProduct. cbv zeta. by rewrite H.
Qed.

Lemma handleAddProduct_bad_url f server :
  ~ incomplete f -> URL_parses (url (readForm f)) = false ->
  handleAddProduct URL_parses f server
  = [ShowNotification (lit "Please enter a valid URL") "error"].
Proof.
  intros H Hurl. rewrite incomplete_readForm in H.
  apply not_true_is_false in H.
  unfold handleAddProduct. cbv zeta. by rewrite H, Hurl.
Qed.

Lemma handleAddProduct_bad_email f server :
  ~ incomplete f -> URL_parses (url (readForm f)) = true ->
  ~ well_formed_email (email (readForm f)) ->
  handleAddProduct URL_parses f server
  = [ShowNotification (lit "Please enter a valid email address") "error"].
Proof.
  intros H Hurl Hmail. rewrite incomplete_readForm in H.
  apply not_true_is_false in H.
  rewrite <- emailRegex_spec in Hmail. apply not_true_is_false in Hmail.
  unfold handleAddProduct. cbv zeta. by rewrite H, Hurl, Hmail.
Qed.
End FormFields.

(** C8.  The add-product form rejects a request at the creation boundary.
    What the handler reads off the form is each field as it was typed, less
    the white space around it.  When a field is empty or white space only,
    when the URL then does not parse, or when the e-mail address is then
    not of the form [local@domain.tail], the handler shows the one error of
    that case and nothing is sent to [/api/products]; these are the only
    ways of being turned away.  A request with every field present, a
    parseable URL and a well-formed address is posted, with the stripped
    fields as its body, and nothing else is ever posted. *)
Theorem handleAddProduct_creation_boundary :
  forall (URL_parses : JS.jsstring -> bool) (f : Dashboard.form)
         (server : Dashboard.productData -> Dashboard.response),
    let effects := Dashboard.handleAddProduct URL_parses f server in
    (exists body, Dashboard.submission f body)
    /\ (forall body body',
          Dashboard.submission f body -> Dashboard.submission f body' ->
          body = body')
    /\ (forall body,
          Dashboard.PostProduct body ∈ effects
          <-> Dashboard.submission f body
              /\ Dashboard.acceptable URL_parses body)
    /\ (Dashboard.incomplete f ->
        effects
        = [Dashboard.ShowNotification (JS.lit "Please fill in all fields")
             "error"])
    /\ (forall body,
          Dashboard.submission f body -> ~ Dashboard.incomplete f ->
          URL_parses (Dashboard.url body) = false ->
          effects
          = [Dashboard.ShowNotification (JS.lit "Please enter a valid URL")
               "error"])
    /\ (forall body,
          Dashboard.submission f body -> ~ Dashboard.incomplete f ->
          URL_parses (Dashboard.url body) = true ->
          ~ Dashboard.well_formed_email (Dashboard.email body) ->
          effects
          = [Dashboard.ShowNotification
               (JS.lit "Please enter a valid email address") "error"])
    /\ (forall body,
          Dashboard.submission f body ->
          ~ Dashboard.incomplete f ->
          URL_parses (Dashboard.url body) = true ->
          Dashboard.well_formed_email (Dashboard.email body) ->
          Dashboard.acceptable URL_parses body
          /\ exists after,
               effects
               = Dashboard.SubmitButton "Adding..." true
                   :: Dashboard.PostProduct body :: after).
Proof.
  intros URL_parses f server effects.
  split; [exists (Dashboard.readForm f); by apply submission_readForm |].
  split.
  { intros body body' H H'. apply submission_readForm in H, H'. congruence. }
  split.
  { intros body. rewrite submission_readForm. split.
    - intros Hin. apply posted_body in Hin as [-> Hok]. done.
    - intros [-> Hok].
      destruct (handleAddProduct_accepts URL_parses f server Hok) as [after Heq].
      subst effects. rewrite Heq.
      apply elem_of_cons. right. apply elem_of_cons. by left. }
  split; [apply handleAddProduct_incomplete |].
  split.
  { intros body Hbody. apply submission_readForm in Hbody as ->.
    apply handleAddProduct_bad_url. }
  split.
  { intros body Hbody. apply submission_readForm in Hbody as ->.
    apply handleAddProduct_bad_email. }
  intros body Hbody Hfilled Hurl Hmail.
  apply submission_readForm in Hbody as ->.
  assert (Dashboard.acceptable URL_parses (Dashboard.readForm f)) as Hok.
  { apply checks_pass. split; [| split; [done | by apply emailRegex_spec]].
    rewrite incomplete_readForm in Hfilled.
    by apply not_true_is_false in Hfilled. }
  split; [done |]. by apply handleAddProduct_accepts.
Qed.

(** The three ways of being turned away, and a request that goes through. *)
Example handleAddProduct_samples :
  let parses := fun u => JS.starts_with (JS.lit "https://") u in
  let server := fun _ => Dashboard.ResponseOk (JS.lit "Product added") in
  let request n u e :=
    {| Dashboard.productName := JS.lit n;
       Dashboard.productUrl := JS.lit u;
       Dashboard.productSelector := JS.lit ".stock";
       Dashboard.expectedText := JS.lit "Sold out";
       Dashboard.productEmail := JS.lit e |} in
  Dashboard.handleAddProduct parses (request "   " "https://shop.example/p" "me@example.com") server
  = [Dashboard.ShowNotification (JS.lit "Please fill in all fields") "error"]
  /\ Dashboard.handleAddProduct parses (request "Kettle" "shop example" "me@example.com") server
     = [Dashboard.ShowNotification (JS.lit "Please enter a valid URL") "error"]
  /\ Dashboard.handleAddProduct parses (request "Kettle" "https://shop.example/p" "me@example") server
     = [Dashboard.ShowNotification (JS.lit "Please enter a valid email address") "error"]
  /\ Dashboard.handleAddProduct parses (request " Kettle " "https://shop.example/p" "me@example.com") server
     = [Dashboard.SubmitButton "Adding..." true;
        Dashboard.PostProduct
          {| Dashboard.name := JS.lit "Kettle";
             Dashboard.url := JS.lit "https://shop.example/p";
             Dashboard.selector := JS.lit ".stock";
             Dashboard.expected_text := JS.lit "Sold out";
             Dashboard.email := JS.lit "me@example.com" |};
        Dashboard.ShowNotification (JS.lit "Product added") "success";
        Dashboard.FormReset; Dashboard.LoadData;
        Dashboard.SubmitButton "Add Product" false].
Proof. vm_compute. repeat split. Qed.

(** ** The activity log *)

Section LogFacts.
Import JS Demo.

(** The loop of [addLogEntry] stops, on the twenty most recent children. *)
Lemma keepRecent_take fuel (children : list logEntry) :
  length children - 20 <= fuel -> keepRecent fuel children = take 20 children.
Proof.
  revert children. induction fuel as [|fuel IH]; intros children Hfuel; simpl.
  - symmetry. apply take_ge. lia.
  - destruct (20 <? length children) eqn:Hlen.
    + apply Nat.ltb_lt in Hlen.
      rewrite IH.
      * rewrite removelast_firstn_len, take_take. f_equal. lia.
      * rewrite removelast_firstn_len, length_take. lia.
    + apply Nat.ltb_ge in Hlen. symmetry. by apply take_ge.
Qed.

Lemma addLogEntry_logsList now message s :
  logsList (addLogEntry now message s)
  = {| logTime := timestamp now; logMessage := message |}
      :: take 19 (logsList s).
Proof.
  unfold addLogEntry, with_logsList. cbv zeta. cbn [logsList].
  rewrite keepRecent_take by lia. done.
Qed.

Lemma addLogEntry_length now message s :
  length (logsList (addLogEntry now message s)) <= 20.
Proof. rewrite addLogEntry_logsList. simpl. rewrite length_take. lia. Qed.

(** Entries recorded one after the other: the page shows the twenty most
    recent, the latest on top. *)
Lemma addLogEntry_many (records : list (jsstring * jsstring)) s :
  length (logsList s) <= 20 ->
  logsList (foldl (fun s r => addLogEntry r.1 r.2 s) s records)
  = take 20
      (rev (map (fun r => {| logTime := timestamp r.1; logMessage := r.2 |})
                records)
       ++ logsList s).
Proof.
  revert s. induction records as [|r records IH]; intros s Hlen; simpl.
  - symmetry. by apply take_ge.
  - rewrite IH by apply addLogEntry_length.
    rewrite addLogEntry_logsList, <- app_assoc. simpl.
    rewrite !(take_app _ _ 20). f_equal.
    destruct (20 - _) as [|n] eqn:Hn; [done |]. simpl. f_equal.
    rewrite take_take. f_equal. lia.
Qed.

End LogFacts.

(** ** The demo dashboard: what the handlers keep *)

Section DemoFacts.
Import JS Demo.

(** Writing [lastChecked] leaves the rest of every object alone. *)
Lemma forget_set_lastChecked v p :
  forget_lastChecked (set_lastChecked v p) = forget_lastChecked p.
Proof. done. Qed.

Lemma lookup_checked v l (h : list product) l' :
  forget_lastChecked <$> alter (set_lastChecked v) l h !! l'
  = forget_lastChecked <$> h !! l'.
Proof.
  destruct (decide (l = l')) as [<-|Hne].
  - rewrite list_lookup_alter_eq. destruct (h !! l); done.
  - by rewrite list_lookup_alter_ne.
Qed.

Lemma from_option_forget {B} (f : product -> B) (d : B) (o o' : option product) :
  (forall p, f (forget_lastChecked p) = f p) ->
  forget_lastChecked <$> o = forget_lastChecked <$> o' ->
  from_option f d o = from_option f d o'.
Proof.
  intros Hf. destruct o as [p|], o' as [p'|]; simpl; try done.
  intros H. rewrite <- (Hf p), <- (Hf p'). f_equal. congruence.
Qed.

Lemma is_active_checked v l s l' X :
  heap X = alter (set_lastChecked v) l (heap s) ->
  is_active X l' = is_active s l'.
Proof.
  intros HX. unfold is_active. rewrite HX.
  apply from_option_forget; [done | apply lookup_checked].
Qed.

Lemma has_id_checked v l s l' X productId :
  heap X = alter (set_lastChecked v) l (heap s) ->
  has_id X productId l' = has_id s productId l'.
Proof.
  intros HX. unfold has_id. rewrite HX.
  apply (from_option_forget (fun p => (id p =? productId)%Z));
    [done | apply lookup_checked].
Qed.

Lemma map_forget_checked v l (h : list product) :
  map forget_lastChecked (alter (set_lastChecked v) l h)
  = map forget_lastChecked h.
Proof.
  apply list_eq. intros i. rewrite !list_lookup_fmap. apply lookup_checked.
Qed.
End DemoFacts.

Section DemoInvariant.
Import JS Demo.

#[local] Arguments keepRecent : simpl never.
#[local] Arguments lit : simpl never.
#[local] Arguments timestamp : simpl never.

Lemma keepRecent_length fuel (children : list logEntry) :
  length children - 20 <= fuel -> length (keepRecent fuel children) <= 20.
Proof. intros H. rewrite keepRecent_take by done. rewrite length_take. lia. Qed.

Lemma lookup_forget_lt (h h' : list product) :
  (forall l, forget_lastChecked <$> h' !! l = forget_lastChecked <$> h !! l) ->
  length h' = length h.
Proof.
  intros H.
  assert (map forget_lastChecked h' = map forget_lastChecked h) as Hmap
    by (apply list_eq; intros i; rewrite !list_lookup_fmap; apply H).
  apply (f_equal length) in Hmap. by rewrite !length_map in Hmap.
Qed.

Lemma is_active_forget s s' l :
  (forall l, forget_lastChecked <$> heap s' !! l
             = forget_lastChecked <$> heap s !! l) ->
  is_active s' l = is_active s l.
Proof. intros H. unfold is_active. apply from_option_forget; [done | apply H]. Qed.

(** A handler that only writes the record of checks keeps the
    invariant. *)
Lemma invariant_frame s s' :
  invariant s ->
  products s' = products s ->
  (forall l, forget_lastChecked <$> heap s' !! l
             = forget_lastChecked <$> heap s !! l) ->
  (forall l, TestResult l ∈ timeouts s' -> TestResult l ∈ timeouts s) ->
  monitoringActive s' = monitoringActive s ->
  monitoringInterval s' = monitoringInterval s ->
  intervals s' = intervals s ->
  length (logsList s') <= 20 ->
  listening s' = listening s ->
  totalProducts s' = totalProducts s ->
  activeProducts s' = activeProducts s ->
  notificationsSent s' = notificationsSent s ->
  invariant s'.
Proof.
  intros [] Hp Hh Ht Ha Hi Hs Hl Hls Htp Hap Hns.
  pose proof (lookup_forget_lt _ _ Hh) as Hlen.
  split; rewrite ?Hp, ?Hlen, ?Ha, ?Hi, ?Hs, ?Hls, ?Htp, ?Hap, ?Hns; try done.
  - intros l Hl'. auto.
  - intros Hlis.
    rewrite (List.filter_ext (is_active s') (is_active s))
      by (intros l; by apply is_active_forget).
    rewrite (List.filter_ext (fun l => negb (is_active s' l))
                             (fun l => negb (is_active s l)))
      by (intros l; f_equal; by apply is_active_forget).
    auto.
Qed.

Lemma showNotification_invariant m t s :
  invariant s -> invariant (showNotification m t s).
Proof. intros H. by eapply invariant_frame; [exact H | ..]; try apply H. Qed.

Lemma addLogEntry_invariant now m s :
  invariant s -> invariant (addLogEntry now m s).
Proof.
  intros H. eapply invariant_frame; [exact H | ..]; try done.
  apply addLogEntry_length.
Qed.

Lemma loadProducts_invariant s : invariant s -> invariant (loadProducts s).
Proof. intros H. by eapply invariant_frame; [exact H | ..]; try apply H. Qed.

Lemma checked_invariant v l s :
  invariant s ->
  invariant (with_heap (alter (set_lastChecked v) l (heap s)) s).
Proof.
  intros H. eapply invariant_frame; [exact H | ..]; try done; try apply H.
  intros l'. apply lookup_checked.
Qed.

Lemma with_modal_invariant v s : invariant s -> invariant (with_modal v s).
Proof. intros H. by eapply invariant_frame; [exact H | ..]; try apply H. Qed.

Lemma delete_timeout_invariant k s :
  invariant s -> invariant (with_timeouts (delete k (timeouts s)) s).
Proof.
  intros H. eapply invariant_frame; [exact H | ..]; try done; try apply H.
  intros l. apply list_elem_of_delete_inv.
Qed.
End DemoInvariant.

Section DemoHandlers.
Import JS Demo.

#[local] Arguments keepRecent : simpl never.
#[local] Arguments lit : simpl never.
#[local] Arguments timestamp : simpl never.

(** [updateStats] makes the counters right, whatever they showed. *)
Lemma updateStats_establishes b s :
  invariant (with_listening false s) ->
  invariant (with_listening b (updateStats s)).
Proof. intros []. split; simpl in *; auto. Qed.

Lemma updateStats_invariant s : invariant s -> invariant (updateStats s).
Proof.
  intros H. apply (updateStats_establishes (listening s)).
  destruct H. split; simpl in *; auto. discriminate.
Qed.

Lemma find_product_elem s productId l :
  find_product s productId = Some l ->
  l ∈ products s /\ has_id s productId l = true.
Proof.
  unfold find_product. intros H. apply find_some in H as [Hin Hid].
  split; [by apply list_elem_of_In | done].
Qed.

Lemma addProduct_invariant f now_ms now s :
  invariant s -> invariant (addProduct f now_ms now s).
Proof.
  intros H. unfold addProduct. cbv zeta.
  apply showNotification_invariant.
  match goal with |- invariant (updateStats ?x) =>
    change (updateStats x) with (with_listening (listening s) (updateStats x))
  end.
  apply updateStats_establishes.
  destruct H as [Hrefs Hnodup Hcb Hrun Hstop Hlog _].
  split; simpl; try done.
  - intros l Hl. rewrite length_app. simpl.
    apply elem_of_app in Hl as [Hl|Hl].
    + apply Hrefs in Hl. lia.
    + apply list_elem_of_singleton in Hl. lia.
  - apply NoDup_app. split; [done |]. split; [| apply NoDup_singleton].
    intros l Hl Hl'. apply list_elem_of_singleton in Hl'.
    apply Hrefs in Hl. lia.
  - intros l Hl. rewrite length_app. apply Hcb in Hl. lia.
Qed.

Lemma deleteProduct_invariant productId confirmed s :
  invariant s -> invariant (deleteProduct productId confirmed s).
Proof.
  intros H. unfold deleteProduct. destruct confirmed; [| done].
  apply showNotification_invariant.
  match goal with |- invariant (updateStats ?x) =>
    change (updateStats x) with (with_listening (listening s) (updateStats x))
  end.
  apply updateStats_establishes.
  destruct H as [Hrefs Hnodup Hcb Hrun Hstop Hlog _].
  split; simpl; try done.
  - intros l Hl. apply list_elem_of_In, filter_In in Hl as [Hl _].
    by apply Hrefs, list_elem_of_In.
  - apply NoDup_ListNoDup, List.NoDup_filter. by apply NoDup_ListNoDup.
Qed.

Lemma testProduct_invariant productId s :
  invariant s -> invariant (testProduct productId s).
Proof.
  intros H. unfold testProduct.
  destruct (find_product s productId) as [l|] eqn:Hfind; [| done].
  apply find_product_elem in Hfind as [Hl _].
  destruct H as [Hrefs Hnodup Hcb Hrun Hstop Hlog Hstats].
  split; simpl; try done.
  intros l' Hl'. apply elem_of_app in Hl' as [Hl'|Hl']; [by apply Hcb |].
  apply list_elem_of_singleton in Hl'. injection Hl' as ->. by apply Hrefs.
Qed.

Lemma testEmail_invariant s : invariant s -> invariant (testEmail s).
Proof.
  intros [Hrefs Hnodup Hcb Hrun Hstop Hlog Hstats].
  split; simpl; try done.
  intros l' Hl'. apply elem_of_app in Hl' as [Hl'|Hl']; [by apply Hcb |].
  apply list_elem_of_singleton in Hl'. discriminate.
Qed.

Lemma testProductDone_invariant l r now1 now2 s :
  invariant s -> invariant (testProductDone l r now1 now2 s).
Proof.
  intros H. unfold testProductDone. cbv zeta.
  apply loadProducts_invariant, checked_invariant, addLogEntry_invariant,
    showNotification_invariant, H.
Qed.

Lemma monitoringTick_invariant r now1 now2 s :
  invariant s -> invariant (monitoringTick r now1 now2 s).
Proof.
  intros H. unfold monitoringTick. destruct (pickProduct r s); [| done].
  cbv zeta.
  apply loadProducts_invariant, checked_invariant, addLogEntry_invariant, H.
Qed.

Lemma viewProduct_invariant productId s :
  invariant s -> invariant (viewProduct productId s).
Proof.
  intros H. unfold viewProduct. destruct (find_product s productId); [| done].
  by apply with_modal_invariant.
Qed.

Lemma startMonitoring_invariant now timer s :
  invariant s -> invariant (startMonitoring now timer s).
Proof.
  intros H. unfold startMonitoring.
  destruct (monitoringActive s) eqn:Hact; [done |]. cbv zeta.
  pose proof (inv_stopped s H Hact) as Hnone.
  pose proof (addLogEntry_length now (lit "Bot monitoring started")
    (showNotification (lit "Monitoring started!") "success"
      (with_monitoringStatus (greenCircle ++ lit " Running", "#27ae60")
        (with_monitoringActive true s)))) as Hlen.
  destruct H as [Hrefs Hnodup Hcb Hrun Hstop Hlog Hstats].
  split; simpl; try done.
  intros _. exists timer. split; [done |].
  rewrite Hnone. apply (right_id_L ∅ (∪)).
Qed.

Lemma stopMonitoring_invariant now s :
  invariant s -> invariant (stopMonitoring now s).
Proof.
  intros H. unfold stopMonitoring.
  destruct (monitoringActive s) eqn:Hact; [| done]. simpl negb. cbv iota zeta.
  apply addLogEntry_invariant, showNotification_invariant.
  destruct (inv_running s H Hact) as (timer & Htimer & Hlive).
  destruct H as [Hrefs Hnodup Hcb Hrun Hstop Hlog Hstats].
  simpl. rewrite Htimer.
  split; simpl; try done.
  intros _. rewrite Hlive. apply difference_diag_L.
Qed.

Lemma runCallback_invariant c r now1 now2 s :
  invariant s -> invariant (runCallback c r now1 now2 s).
Proof.
  intros H. destruct c; simpl.
  - by apply addLogEntry_invariant, addLogEntry_invariant.
  - by apply testProductDone_invariant.
  - by apply addLogEntry_invariant, showNotification_invariant.
Qed.

Lemma handle_invariant e s : invariant s -> invariant (handle e s).
Proof.
  intros H. destruct e; simpl.
  - unfold onLoad. apply updateStats_establishes.
    apply loadProducts_invariant in H.
    destruct H. split; simpl in *; auto. discriminate.
  - by apply addProduct_invariant.
  - by apply testProduct_invariant.
  - by apply viewProduct_invariant.
  - by apply deleteProduct_invariant.
  - by apply startMonitoring_invariant.
  - by apply stopMonitoring_invariant.
  - by apply testEmail_invariant.
  - by apply with_modal_invariant.
  - destruct (timeouts s !! k); [| done].
    by apply runCallback_invariant, delete_timeout_invariant.
  - by apply monitoringTick_invariant.
Qed.

Lemma init_invariant : invariant init.
Proof.
  split; simpl; try done.
  - intros l Hl. apply elem_of_cons in Hl as [->|Hl]; [lia |].
    apply list_elem_of_singleton in Hl as ->. lia.
  - apply NoDup_cons. split; [| apply NoDup_singleton].
    intros H. apply list_elem_of_singleton in H. discriminate.
  - intros l Hl. apply list_elem_of_singleton in Hl. discriminate.
  - lia.
Qed.

Lemma run_invariant es s : invariant s -> invariant (run es s).
Proof.
  revert s. induction es as [|e es IH]; intros s H; simpl; [done |].
  by apply IH, handle_invariant.
Qed.

(** Every state of the page satisfies the invariant. *)
Lemma reachable_invariant s : reachable s -> invariant s.
Proof.
  induction 1 as [|s s' _ IH Hstep]; [apply init_invariant |].
  destruct Hstep. by apply handle_invariant.
Qed.
End DemoHandlers.

(** ** Monitoring: stopped or running *)

Lemma reachable_run es s :
  Demo.reachable s -> Demo.deliverable es s -> Demo.reachable (Demo.run es s).
Proof.
  revert s. induction es as [|e es IH]; intros s Hs Hes; simpl; [done |].
  destruct Hes as [He Hes]. apply IH; [| done].
  eapply Demo.reachable_step; [exact Hs | by apply Demo.step_event].
Qed.

(** Closes the side conditions of a concrete run. *)
Ltac deliver_all :=
  repeat split;
  first [ reflexivity | discriminate | apply not_elem_of_empty
        | vm_compute; reflexivity | vm_compute; lia ].

(** The page after it has loaded and Start has been clicked once. *)
Lemma reachable_running :
  Demo.reachable
    (Demo.run [Demo.DOMContentLoaded;
               Demo.ClickStart (JS.lit "2024-01-15T14:31:00.000Z") 7]
       Demo.init).
Proof.
  apply reachable_run; [apply Demo.reachable_init |].
  repeat split. apply not_elem_of_empty.
Qed.

(** C9.  Monitoring is stopped or running, and the two handlers are
    guarded.  In every state of the page: Start while running and Stop
    while stopped leave the whole state as it is; after Start exactly one
    periodic timer is live and after Stop none is, so no second loop is
    ever created and Stop cancels the loop; while running the live timers
    are the one recorded in [monitoringInterval], while stopped there is
    none. *)
Theorem monitoring_start_stop_guarded :
  forall (s : Demo.state) (now : JS.jsstring) (timer : positive),
    Demo.reachable s ->
    (Demo.monitoringActive s = true -> Demo.startMonitoring now timer s = s)
    /\ (Demo.monitoringActive s = false -> Demo.stopMonitoring now s = s)
    /\ Demo.monitoringActive (Demo.startMonitoring now timer s) = true
    /\ size (Demo.intervals (Demo.startMonitoring now timer s)) = 1
    /\ Demo.monitoringActive (Demo.stopMonitoring now s) = false
    /\ Demo.intervals (Demo.stopMonitoring now s) = ∅
    /\ (Demo.monitoringActive s = true ->
        exists t, Demo.monitoringInterval s = Some t
                  /\ Demo.intervals s = {[t]})
    /\ (Demo.monitoringActive s = false -> Demo.intervals s = ∅).
Proof.
  intros s now timer Hreach.
  pose proof (reachable_invariant s Hreach) as Hinv.
  pose proof (startMonitoring_invariant now timer s Hinv) as Hstart.
  pose proof (stopMonitoring_invariant now s Hinv) as Hstop.
  assert (Demo.monitoringActive (Demo.startMonitoring now timer s) = true)
    as Hon.
  { unfold Demo.startMonitoring.
    destruct (Demo.monitoringActive s) eqn:Hact; done. }
  assert (Demo.monitoringActive (Demo.stopMonitoring now s) = false) as Hoff.
  { unfold Demo.stopMonitoring.
    destruct (Demo.monitoringActive s) eqn:Hact; [| done].
    simpl. by destruct (Demo.monitoringInterval s). }
  repeat split.
  - intros Hact. unfold Demo.startMonitoring. by rewrite Hact.
  - intros Hact. unfold Demo.stopMonitoring. by rewrite Hact.
  - exact Hon.
  - destruct (Demo.inv_running _ Hstart Hon) as (t & _ & ->).
    apply size_singleton.
  - exact Hoff.
  - exact (Demo.inv_stopped _ Hstop Hoff).
  - apply (Demo.inv_running _ Hinv).
  - apply (Demo.inv_stopped _ Hinv).
Qed.

Lemma monitoring_start_stop_guarded_witness :
  let s := Demo.run [Demo.DOMContentLoaded;
                     Demo.ClickStart (JS.lit "2024-01-15T14:31:00.000Z") 7]
             Demo.init in
  Demo.startMonitoring (JS.lit "2024-01-15T14:31:05.000Z") 8 s = s
  /\ Demo.intervals (Demo.stopMonitoring (JS.lit "2024-01-15T14:31:05.000Z") s) = ∅.
Proof.
  intros s.
  pose proof (monitoring_start_stop_guarded s
                (JS.lit "2024-01-15T14:31:05.000Z") 8 reachable_running)
    as (Hstart & _ & _ & _ & _ & Hstop & _).
  split; [apply Hstart; reflexivity | exact Hstop].
Defined.

(** ** Products once created *)

Section DemoObjects.
Import JS Demo.

#[local] Arguments keepRecent : simpl never.
#[local] Arguments lit : simpl never.
#[local] Arguments timestamp : simpl never.

Lemma heap_extends_refl h : heap_extends h h.
Proof. intros l p H. eauto. Qed.

Lemma heap_extends_trans h1 h2 h3 :
  heap_extends h1 h2 -> heap_extends h2 h3 -> heap_extends h1 h3.
Proof.
  intros H12 H23 l p H. destruct (H12 l p H) as (p' & H' & Heq).
  destruct (H23 l p' H') as (p'' & H'' & Heq'). exists p''. split; congruence.
Qed.

Lemma heap_extends_checked v l h :
  heap_extends h (alter (set_lastChecked v) l h).
Proof.
  intros l' p H. pose proof (lookup_checked v l h l') as Hl. rewrite H in Hl.
  destruct (alter _ l h !! l') as [p'|]; [| done].
  exists p'. split; [done |]. simpl in Hl. congruence.
Qed.

Lemma heap_extends_app h new : heap_extends h (h ++ new).
Proof. intros l p H. exists p. split; [by apply lookup_app_l_Some | done]. Qed.

Lemma handle_heap_extends e s : heap_extends (heap s) (heap (handle e s)).
Proof.
  destruct e; simpl; try apply heap_extends_refl.
  - apply heap_extends_app.
  - unfold testProduct. destruct (find_product s productId); apply heap_extends_refl.
  - unfold viewProduct. destruct (find_product s productId); apply heap_extends_refl.
  - unfold deleteProduct. destruct confirmed; apply heap_extends_refl.
  - unfold startMonitoring. destruct (monitoringActive s); apply heap_extends_refl.
  - unfold stopMonitoring. destruct (monitoringActive s); simpl;
      [destruct (monitoringInterval s) |]; apply heap_extends_refl.
  - destruct (timeouts s !! k) as [[]|]; simpl;
      try apply heap_extends_refl. apply heap_extends_checked.
  - unfold monitoringTick. destruct (pickProduct r s); simpl;
      [apply heap_extends_checked | apply heap_extends_refl].
Qed.

Lemma run_heap_extends es s : heap_extends (heap s) (heap (run es s)).
Proof.
  revert s. induction es as [|e es IH]; intros s; simpl.
  - apply heap_extends_refl.
  - eapply heap_extends_trans; [apply handle_heap_extends | apply IH].
Qed.

(** The object [addProduct] creates. *)
Lemma addProduct_new f now_ms now s :
  heap (addProduct f now_ms now s) !! length (heap s)
  = Some {| id := now_ms;
            name := productName f;
            url := productUrl f;
            selector := productSelector f;
            expectedText := expectedTextField f;
            email := productEmail f;
            isActive := true;
            lastChecked := None;
            createdAt := timestamp now |}
  /\ products (addProduct f now_ms now s) = products s ++ [length (heap s)].
Proof.
  simpl. split; [| done]. rewrite lookup_app_r by lia.
  by rewrite Nat.sub_diag.
Qed.

(** What stays of it, whatever happens next. *)
Lemma addProduct_kept f now_ms now s es :
  exists p,
    heap (run es (addProduct f now_ms now s)) !! length (heap s) = Some p
    /\ id p = now_ms /\ createdAt p = timestamp now /\ isActive p = true
    /\ name p = productName f.
Proof.
  destruct (addProduct_new f now_ms now s) as [Hnew _].
  destruct (run_heap_extends es _ _ _ Hnew) as (p & Hp & Heq).
  exists p. split; [done |].
  repeat split.
  - apply (f_equal id) in Heq. exact Heq.
  - apply (f_equal createdAt) in Heq. exact Heq.
  - apply (f_equal isActive) in Heq. exact Heq.
  - apply (f_equal name) in Heq. exact Heq.
Qed.
End DemoObjects.

(** C6.  A product created by [addProduct] is appended to the array as a
    new object that is active, has never been checked ([lastChecked] is
    [null]) and carries the time of its creation; whatever events follow,
    that object keeps the [createdAt] it was given. *)
Theorem addProduct_starts_active_createdAt_kept :
  forall (s : Demo.state) (f : Demo.form) (now_ms : Z) (now : JS.jsstring),
    let l := length (Demo.heap s) in
    let s1 := Demo.addProduct f now_ms now s in
    last (Demo.products s1) = Some l
    /\ (exists p,
          Demo.heap s1 !! l = Some p
          /\ Demo.isActive p = true
          /\ Demo.lastChecked p = None
          /\ Demo.createdAt p = Demo.timestamp now)
    /\ forall es : list Demo.event,
         exists p,
           Demo.heap (Demo.run es s1) !! l = Some p
           /\ Demo.createdAt p = Demo.timestamp now.
Proof.
  intros s f now_ms now l s1.
  destruct (addProduct_new f now_ms now s) as [Hnew Hprods].
  split; [| split].
  - subst s1. rewrite Hprods. apply last_snoc.
  - eexists. split; [exact Hnew |]. done.
  - intros es. destruct (addProduct_kept f now_ms now s es) as (p & Hp & _ & Hc & _).
    exists p. done.
Qed.

(** Against C7 as stated: two products added at the same reading of the
    clock get the same id, and deleting by that id removes both. *)
Lemma addProduct_same_millisecond_same_id :
  let kettle :=
    {| Demo.productName := JS.lit "Kettle";
       Demo.productUrl := JS.lit "https://shop.example/kettle";
       Demo.productSelector := JS.lit ".stock";
       Demo.expectedTextField := JS.lit "Sold out";
       Demo.productEmail := JS.lit "me@example.com" |} in
  let toaster :=
    {| Demo.productName := JS.lit "Toaster";
       Demo.productUrl := JS.lit "https://shop.example/toaster";
       Demo.productSelector := JS.lit ".stock";
       Demo.expectedTextField := JS.lit "Sold out";
       Demo.productEmail := JS.lit "me@example.com" |} in
  let now := JS.lit "2024-01-15T14:31:00.000Z" in
  let s := Demo.run [Demo.DOMContentLoaded;
                     Demo.SubmitAddProduct kettle 1705329060000 now;
                     Demo.SubmitAddProduct toaster 1705329060000 now]
             Demo.init in
  Demo.reachable s
  /\ Demo.products s = [0; 1; 2; 3]
  /\ (Demo.name <$> Demo.heap s !! 2) = Some (JS.lit "Kettle")
  /\ (Demo.name <$> Demo.heap s !! 3) = Some (JS.lit "Toaster")
  /\ (Demo.id <$> Demo.heap s !! 2) = Some 1705329060000%Z
  /\ (Demo.id <$> Demo.heap s !! 3) = Some 1705329060000%Z
  /\ Demo.heap s !! 2 <> Demo.heap s !! 3
  /\ Demo.products (Demo.deleteProduct 1705329060000 true s) = [0; 1].
Proof.
  intros kettle toaster now s. split; [| vm_compute; repeat split; discriminate].
  apply reachable_run; [apply Demo.reachable_init |]. repeat split.
Qed.

(** C7, as the code has it.  The id of a product is the reading of
    [Date.now()] at its creation: two products created at different
    readings have different ids, whatever happens in between, and the id
    of an object is never written again. *)
Theorem addProduct_ids_differ_at_different_times :
  forall (s : Demo.state) (f1 f2 : Demo.form) (t1 t2 : Z)
         (now1 now2 : JS.jsstring) (between after : list Demo.event),
    t1 <> t2 ->
    let l1 := length (Demo.heap s) in
    let s1 := Demo.run between (Demo.addProduct f1 t1 now1 s) in
    let l2 := length (Demo.heap s1) in
    let s2 := Demo.run after (Demo.addProduct f2 t2 now2 s1) in
    exists p1 p2,
      Demo.heap s2 !! l1 = Some p1 /\ Demo.heap s2 !! l2 = Some p2
      /\ Demo.id p1 = t1 /\ Demo.id p2 = t2 /\ Demo.id p1 <> Demo.id p2.
Proof.
  intros s f1 f2 t1 t2 now1 now2 between after Hne l1 s1 l2 s2.
  destruct (addProduct_kept f1 t1 now1 s
              (between ++ Demo.SubmitAddProduct f2 t2 now2 :: after))
    as (p1 & Hp1 & Hid1 & _).
  destruct (addProduct_kept f2 t2 now2 s1 after) as (p2 & Hp2 & Hid2 & _).
  exists p1, p2. repeat split; try done; [| congruence].
  subst s2 s1 l1. revert Hp1. clear.
  generalize (Demo.addProduct f1 t1 now1 s). intros s0.
  revert s0. induction between as [|e es IH]; intros s0; simpl; [done |].
  apply IH.
Qed.

Lemma addProduct_ids_differ_at_different_times_witness :
  let kettle :=
    {| Demo.productName := JS.lit "Kettle";
       Demo.productUrl := JS.lit "https://shop.example/kettle";
       Demo.productSelector := JS.lit ".stock";
       Demo.expectedTextField := JS.lit "Sold out";
       Demo.productEmail := JS.lit "me@example.com" |} in
  let s := Demo.onLoad Demo.init in
  let l1 := length (Demo.heap s) in
  let s1 :=
    Demo.run [Demo.ClickStart (JS.lit "2024-01-15T14:31:00.000Z") 7]
      (Demo.addProduct kettle 1705329060000
         (JS.lit "2024-01-15T14:31:00.000Z") s) in
  let l2 := length (Demo.heap s1) in
  let s2 :=
    Demo.run [Demo.ClickTest 1]
      (Demo.addProduct kettle 1705329060001
         (JS.lit "2024-01-15T14:31:00.001Z") s1) in
  (1705329060000 <> 1705329060001)%Z
  /\ exists p1 p2,
       Demo.heap s2 !! l1 = Some p1 /\ Demo.heap s2 !! l2 = Some p2
       /\ Demo.id p1 = 1705329060000%Z /\ Demo.id p2 = 1705329060001%Z
       /\ Demo.id p1 <> Demo.id p2.
Proof.
  intros kettle s l1 s1 l2 s2.
  assert (1705329060000 <> 1705329060001)%Z as Hne by lia.
  split; [exact Hne |].
  exact (addProduct_ids_differ_at_different_times s kettle kettle
           1705329060000 1705329060001
           (JS.lit "2024-01-15T14:31:00.000Z")
           (JS.lit "2024-01-15T14:31:00.001Z")
           [Demo.ClickStart (JS.lit "2024-01-15T14:31:00.000Z") 7]
           [Demo.ClickTest 1] Hne).
Defined.

(** ** The log of the demo page, over the entries recorded *)

Section DemoRecords.
Import JS Demo.

#[local] Arguments keepRecent : simpl never.
#[local] Arguments lit : simpl never.
#[local] Arguments timestamp : simpl never.


End DemoRecords.



(** ** Binary64 arithmetic *)

Section Binary64.
Import Demo.
Local Open Scope Z_scope.

(** [lra] and [nra] over the rationals, with the injected integers as
    atoms. *)
Ltac hide_inject :=
  repeat match goal with
  | |- context [inject_Z ?z] =>
      let a := fresh "a" in set (a := inject_Z z) in *; clearbody a
  | H : context [inject_Z ?z] |- _ =>
      let a := fresh "a" in set (a := inject_Z z) in *; clearbody a
  end.
Ltac qlra := hide_inject; lra.
Ltac qnra := hide_inject; nra.

Lemma pow2_nonneg e : 0 <= e -> pow2 e = inject_Z (2 ^ e).
Proof. intros H. unfold pow2. by rewrite (proj2 (Z.leb_le 0 e) H). Qed.

Lemma pow2_neg e : e < 0 -> pow2 e = 1 # Z.to_pos (2 ^ (- e)).
Proof. intros H. unfold pow2. by rewrite (proj2 (Z.leb_gt 0 e) H). Qed.

Lemma pow2_pos e : (0 < pow2 e)%Q.
Proof.
  destruct (Z_le_gt_dec 0 e) as [H|H].
  - rewrite pow2_nonneg by done. rewrite <- (Zlt_Qlt 0). by apply Z.pow_pos_nonneg.
  - rewrite pow2_neg by lia. reflexivity.
Qed.

(** [2^(-k) * 2^k = 1] *)
Lemma pow2_inverse k : 0 <= k -> (pow2 (- k) * inject_Z (2 ^ k) == 1)%Q.
Proof.
  intros Hk. destruct (Z.eq_dec k 0) as [->|Hne]; [reflexivity |].
  rewrite pow2_neg by lia. rewrite Z.opp_involutive.
  assert (0 < 2 ^ k) as Hpos by (by apply Z.pow_pos_nonneg).
  unfold Qeq, Qmult, inject_Z. simpl. rewrite Pos.mul_1_r, Z2Pos.id by done. lia.
Qed.

(** The power of two of the exponent of a positive number is at most the
    number ... *)
Lemma exponent_le x : (0 < x)%Q -> (pow2 (exponent x) <= x)%Q.
Proof.
  intros Hx. unfold exponent. cbv zeta.
  destruct (Qle_bool _ x) eqn:Htest; [by apply Qle_bool_iff |].
  destruct x as [a b]. simpl Qnum in *. simpl Qden in *.
  assert (0 < a) as Ha by (unfold Qlt in Hx; simpl in Hx; lia).
  pose proof (Z.log2_spec a Ha) as [Hla _].
  pose proof (Z.log2_spec (Zpos b) (Pos2Z.is_pos b)) as [_ Hlb].
  pose proof (Z.log2_nonneg a) as Hla0.
  pose proof (Z.log2_nonneg (Zpos b)) as Hlb0.
  set (la := Z.log2 a) in *. set (lb := Z.log2 (Zpos b)) in *.
  destruct (Z_le_gt_dec 0 (la - lb - 1)) as [H|H].
  - rewrite pow2_nonneg by done. unfold Qle, inject_Z. simpl.
    assert (2 ^ la = 2 ^ (la - lb - 1) * 2 ^ (lb + 1)) as Hsplit
      by (rewrite <- Z.pow_add_r by lia; f_equal; lia).
    assert (0 < 2 ^ (la - lb - 1)) by (apply Z.pow_pos_nonneg; lia).
    nia.
  - rewrite pow2_neg by lia. unfold Qle. simpl.
    assert (0 < 2 ^ (- (la - lb - 1))) as Hpos by (apply Z.pow_pos_nonneg; lia).
    rewrite Z2Pos.id by done.
    assert (2 ^ (lb + 1) = 2 ^ la * 2 ^ (- (la - lb - 1))) as Hsplit
      by (rewrite <- Z.pow_add_r by lia; f_equal; lia).
    nia.
Qed.

(** ... and the next power of two is above the number. *)
Lemma exponent_gt x : (0 < x)%Q -> (x < pow2 (exponent x + 1))%Q.
Proof.
  intros Hx. unfold exponent. cbv zeta.
  destruct (Qle_bool _ x) eqn:Htest.
  - destruct x as [a b]. simpl Qnum in *. simpl Qden in *.
    assert (0 < a) as Ha by (unfold Qlt in Hx; simpl in Hx; lia).
    pose proof (Z.log2_spec a Ha) as [_ Hla].
    pose proof (Z.log2_spec (Zpos b) (Pos2Z.is_pos b)) as [Hlb _].
    pose proof (Z.log2_nonneg a) as Hla0.
    pose proof (Z.log2_nonneg (Zpos b)) as Hlb0.
    set (la := Z.log2 a) in *. set (lb := Z.log2 (Zpos b)) in *.
    destruct (Z_le_gt_dec 0 (la - lb + 1)) as [H|H].
    + rewrite pow2_nonneg by done. unfold Qlt, inject_Z. simpl.
      assert (2 ^ (la + 1) = 2 ^ (la - lb + 1) * 2 ^ lb) as Hsplit
        by (rewrite <- Z.pow_add_r by lia; f_equal; lia).
      assert (0 < 2 ^ (la - lb + 1)) by (apply Z.pow_pos_nonneg; lia).
      nia.
    + rewrite pow2_neg by lia. unfold Qlt. simpl.
      assert (0 < 2 ^ (- (la - lb + 1))) as Hpos by (apply Z.pow_pos_nonneg; lia).
      rewrite Z2Pos.id by done.
      assert (2 ^ lb = 2 ^ (la + 1) * 2 ^ (- (la - lb + 1))) as Hsplit
        by (rewrite <- Z.pow_add_r by lia; f_equal; lia).
      nia.
  - replace (Z.log2 (Qnum x) - Z.log2 (Z.pos (Qden x)) - 1 + 1)
      with (Z.log2 (Qnum x) - Z.log2 (Z.pos (Qden x))) by lia.
    apply Qnot_le_lt. intros Hle. apply Qle_bool_iff in Hle. congruence.
Qed.

Lemma nearest_even_ge q : Qfloor q <= nearest_even q.
Proof.
  unfold nearest_even. cbv zeta.
  destruct (_ ?= _)%Q; [destruct (Z.even _) | |]; lia.
Qed.

Lemma nearest_even_below q N :
  (q < inject_Z N - (1 # 2))%Q -> nearest_even q <= N - 1.
Proof.
  intros Hq. unfold nearest_even. cbv zeta.
  pose proof (Qfloor_le q) as Hfloor.
  assert (Qfloor q < N) as Hlt by (rewrite Zlt_Qlt; qlra).
  destruct (q - inject_Z (Qfloor q) ?= 1 # 2)%Q eqn:Hcmp.
  - apply Qeq_alt in Hcmp.
    assert (Qfloor q + 1 < N); [| destruct (Z.even _); lia].
    rewrite Zlt_Qlt, inject_Z_plus. change (inject_Z 1) with 1%Q. qlra.
  - lia.
  - apply Qgt_alt in Hcmp.
    assert (Qfloor q + 1 < N); [| lia].
    rewrite Zlt_Qlt, inject_Z_plus. change (inject_Z 1) with 1%Q. qlra.
Qed.

Lemma pow2_opp e : (pow2 e * pow2 (- e) == 1)%Q.
Proof.
  destruct (Z_le_gt_dec 0 e) as [H|H].
  - rewrite (pow2_nonneg e) by done.
    pose proof (pow2_inverse e H) as Hinv.
    set (u := pow2 (- e)) in *. qnra.
  - pose proof (pow2_inverse (- e) ltac:(lia)) as Hinv.
    rewrite Z.opp_involutive in Hinv.
    rewrite (pow2_nonneg (- e)) by lia. exact Hinv.
Qed.

Lemma nearest_even_near q :
  (inject_Z (nearest_even q) - (1 # 2) <= q
   /\ q <= inject_Z (nearest_even q) + (1 # 2))%Q.
Proof.
  unfold nearest_even. cbv zeta.
  pose proof (Qfloor_le q) as Hlo. pose proof (Qlt_floor q) as Hhi.
  rewrite inject_Z_plus in Hhi. change (inject_Z 1) with 1%Q in Hhi.
  destruct (q - inject_Z (Qfloor q) ?= 1 # 2)%Q eqn:Hcmp.
  - apply Qeq_alt in Hcmp.
    destruct (Z.even (Qfloor q)); [qlra |].
    rewrite inject_Z_plus. change (inject_Z 1) with 1%Q. qlra.
  - apply Qlt_alt in Hcmp. qlra.
  - apply Qgt_alt in Hcmp.
    rewrite inject_Z_plus. change (inject_Z 1) with 1%Q. qlra.
Qed.

(** The rounded value of a positive number is a multiple of its unit in
    the last place, and no more than half a unit away. *)
Lemma round64_nearest x :
  (0 < x)%Q ->
  let ulp := pow2 (Z.max (exponent x) (-1022) - 52) in
  exists m : Z,
    (round64 x == inject_Z m * ulp)%Q
    /\ (x - (1 # 2) * ulp <= round64 x)%Q
    /\ (round64 x <= x + (1 # 2) * ulp)%Q.
Proof.
  intros Hx ulp. unfold round64.
  destruct (Qnum x) as [|a|a] eqn:Hnum;
    [unfold Qlt in Hx; rewrite Hnum in Hx; simpl in Hx; lia | |
     unfold Qlt in Hx; rewrite Hnum in Hx; simpl in Hx; lia].
  cbv zeta. set (e := Z.max (exponent x) (-1022)) in *.
  pose proof (pow2_opp (e - 52)) as Hinv.
  replace (- (e - 52)) with (52 - e) in Hinv by lia.
  pose proof (pow2_pos (e - 52)) as Hu. fold ulp in Hinv, Hu |- *.
  pose proof (pow2_pos (52 - e)) as Hv.
  set (v := pow2 (52 - e)) in *.
  destruct (nearest_even_near (x * v)) as [Hlo Hhi].
  exists (nearest_even (x * v)). split; [reflexivity |].
  set (m := inject_Z (nearest_even (x * v))) in *. clearbody m.
  clearbody ulp v. split; nra.
Qed.

(** On draws with a product that has to be rounded, up, down or to even,
    and on products below the normal range, [round64] is the
    multiplication of the machine. *)
Example round64_agrees_with_machine :
  forallb
    (fun m =>
       forallb (agrees_with_machine m (-53))
         [1; 2; 3; 5; 6; 7; 9; 10; 11; 13; 100; 1000; 123456789; 4294967295])
    [0; 1; 2; 3; 1234567890123; 1286742750677284; 2573485501354569;
     3002399751580331; 4503599627370496; 4503599627370497;
     5629499534213120; 6004799503160661; 6433713753386423;
     7777777777777777; 8106479329266893; 9007199254740990;
     9007199254740991]
  = true
  /\ forallb (fun '(m, e, n) => agrees_with_machine m e n)
       [(1, -1074, 3); (3, -1074, 3); (5, -1074, 7);
        (9007199254740991, -1074, 3); (4503599627370497, -1074, 3);
        (6004799503160661, -1073, 3); (6004799503160661, -1030, 3);
        (6004799503160661, -500, 3); (6004799503160661, -60, 7)]
     = true.
Proof. split; vm_compute; reflexivity. Qed.

(** A product with a number that is at most [1 - 2^(-53)] stays below the
    other factor after rounding: [n - x] is at least [n * 2^(-53)], more
    than half a unit in the last place of [x]. *)
Lemma randomIndex_below r n :
  (0 <= r)%Q -> (r <= 1 - (1 # 2 ^ 53))%Q ->
  (0 < Z.of_nat n < 2 ^ 53)%Z ->
  (0 <= randomIndex r n < Z.of_nat n)%Z.
Proof.
  intros Hlo Hhi [Hn Hbig]. unfold randomIndex.
  change (1 # 2 ^ 53)%Q with (1 # 9007199254740992)%Q in *.
  set (z := Z.of_nat n) in *.
  set (x := (r * inject_Z z)%Q).
  assert (0 < inject_Z z)%Q as Hz by (rewrite <- (Zlt_Qlt 0); lia).
  assert (0 <= x)%Q as Hx0 by (subst x; apply Qmult_le_0_compat; qlra).
  assert (x <= inject_Z z - inject_Z z * (1 # 9007199254740992))%Q as Hxn.
  { subst x. qnra. }
  unfold round64.
  destruct (Qnum x) as [|a|a] eqn:Hnum.
  - change (Qfloor 0) with 0%Z. clear - Hn. lia.
  - assert (0 < x)%Q as Hx by (unfold Qlt; rewrite Hnum; simpl; lia).
    cbv zeta.
    set (e := Z.max (exponent x) (-1022)).
    pose proof (exponent_le x Hx) as Hexp.
    assert (exponent x <= 52)%Z as He52.
    { destruct (Z_le_gt_dec (exponent x) 52) as [|Hgt]; [done |].
      rewrite pow2_nonneg in Hexp by lia.
      assert (2 ^ 53 <= 2 ^ exponent x)%Z by (apply Z.pow_le_mono_r; lia).
      assert (inject_Z (2 ^ exponent x) < inject_Z (2 ^ 53))%Q; [| rewrite <- Zlt_Qlt in *; lia].
      assert (inject_Z z < inject_Z (2 ^ 53))%Q by (rewrite <- Zlt_Qlt; lia).
      assert (0 <= inject_Z z * (1 # 9007199254740992))%Q by (apply Qmult_le_0_compat; qlra).
      qlra. }
    assert (e <= 52)%Z as Hele by lia.
    set (K := (2 ^ (52 - e))%Z).
    assert (0 < K)%Z as HK by (apply Z.pow_pos_nonneg; lia).
    rewrite (pow2_nonneg (52 - e)) by lia. fold K.
    replace (e - 52)%Z with (- (52 - e))%Z by lia.
    pose proof (pow2_inverse (52 - e) ltac:(lia)) as Hinv. fold K in Hinv.
    pose proof (pow2_pos (- (52 - e))) as Hu.
    set (u := pow2 (- (52 - e))) in *.
    assert (2 ^ 52 < z * K)%Z as HnK.
    { destruct (Z_le_gt_dec 0 e) as [He|He].
      - assert (e = exponent x) as Heq by lia.
        rewrite <- Heq, pow2_nonneg in Hexp by done.
        assert (inject_Z (2 ^ e) < inject_Z z)%Q.
        { assert (0 < inject_Z z * (1 # 9007199254740992))%Q by (apply Qmult_lt_0_compat; qlra). qlra. }
        rewrite <- Zlt_Qlt in *.
        assert (2 ^ 52 = 2 ^ e * K)%Z as ->
          by (subst K; rewrite <- Z.pow_add_r by lia; f_equal; lia).
        nia.
      - assert (2 ^ 53 <= K)%Z by (subst K; apply Z.pow_le_mono_r; lia).
        nia. }
    assert (inject_Z (2 ^ 52) < inject_Z z * inject_Z K)%Q as HnKq
      by (rewrite <- inject_Z_mult, <- Zlt_Qlt; done).
    assert (0 < inject_Z K)%Q as HKq by (rewrite <- (Zlt_Qlt 0); done).
    set (q := (x * inject_Z K)%Q).
    assert (q < inject_Z (z * K) - (1 # 2))%Q as Hq.
    { rewrite inject_Z_mult. subst q.
      change (inject_Z (2 ^ 52)) with (4503599627370496 # 1) in HnKq.
      qnra. }
    pose proof (nearest_even_below q (z * K) Hq) as Hm.
    pose proof (nearest_even_ge q) as Hm0.
    assert (0 <= Qfloor q)%Z as Hf0.
    { change 0%Z with (Qfloor 0). apply Qfloor_resp_le. subst q. qnra. }
    set (m := nearest_even q) in *.
    assert (0 <= inject_Z m)%Q as Hmq0 by (rewrite <- (Zle_Qle 0); lia).
    assert (inject_Z m <= inject_Z z * inject_Z K - 1)%Q as Hmq.
    { rewrite <- inject_Z_mult.
      assert (inject_Z m <= inject_Z (z * K - 1))%Q as Hle
        by (rewrite <- Zle_Qle; lia).
      replace (z * K - 1)%Z with (z * K + - (1))%Z in Hle by lia.
      rewrite inject_Z_plus, inject_Z_opp in Hle.
      change (inject_Z 1) with 1%Q in Hle. qlra. }
    split.
    + change 0%Z with (Qfloor 0). apply Qfloor_resp_le. qnra.
    + rewrite Zlt_Qlt. eapply Qle_lt_trans; [apply Qfloor_le |]. qnra.
  - exfalso. unfold Qle in Hx0. rewrite Hnum in Hx0. simpl in Hx0. lia.
Qed.

(** The largest binary64 value below 1 is [1 - 2^(-53)]. *)
Lemma binary64_below_one r :
  is_binary64 r -> (0 <= r)%Q -> (r < 1)%Q -> (r <= 1 - (1 # 2 ^ 53))%Q.
Proof.
  intros (m & e & Hm & [He _] & Hr) Hlo Hhi.
  change (1 - (1 # 2 ^ 53))%Q with (9007199254740991 # 9007199254740992)%Q.
  rewrite Hr in *. clear Hr r.
  destruct (Z_le_gt_dec 0 e) as [Hpos|Hneg].
  - rewrite pow2_nonneg in * by done. rewrite <- inject_Z_mult in *.
    change 0%Q with (inject_Z 0) in Hlo. change 1%Q with (inject_Z 1) in Hhi.
    rewrite <- Zle_Qle in Hlo. rewrite <- Zlt_Qlt in Hhi.
    assert (m * 2 ^ e = 0)%Z as -> by lia. done.
  - rewrite pow2_neg in * by lia.
    assert (0 < 2 ^ (- e))%Z as Hk by (apply Z.pow_pos_nonneg; lia).
    unfold Qle, Qlt, Qmult, inject_Z in *. simpl in *.
    rewrite Pos.mul_1_l, Z2Pos.id in * by done.
    destruct (Z_le_gt_dec (- e) 53) as [Hsmall|Hlarge].
    + assert (2 ^ (- e) <= 2 ^ 53)%Z by (apply Z.pow_le_mono_r; lia).
      change (2 ^ 53)%Z with 9007199254740992%Z in *. nia.
    + assert (2 ^ 53 <= 2 ^ (- e))%Z by (apply Z.pow_le_mono_r; lia).
      change (2 ^ 53)%Z with 9007199254740992%Z in *. nia.
Qed.

(** [Math.floor(Math.random() * n)] is an index of an array of length
    [n]. *)
Lemma randomIndex_range r n :
  is_binary64 r -> is_draw r -> (0 < Z.of_nat n < 2 ^ 53)%Z ->
  (0 <= randomIndex r n < Z.of_nat n)%Z.
Proof.
  intros Hb [Hlo Hhi] Hn. apply randomIndex_below; [done | | done].
  by apply binary64_below_one.
Qed.
End Binary64.

(** ** A monitoring cycle of the demo *)

Section DemoCycle.
Import JS Demo.

#[local] Arguments keepRecent : simpl never.
#[local] Arguments lit : simpl never.
#[local] Arguments timestamp : simpl never.

(** The tick picks one of the active products of the array, or none when
    there is none. *)
Lemma pickProduct_spec r s :
  is_binary64 r -> is_draw r ->
  (Z.of_nat (length (products s)) < 2 ^ 32)%Z ->
  match pickProduct r s with
  | Some l =>
      List.filter (is_active s) (products s)
        !! Z.to_nat (randomIndex r (length (List.filter (is_active s) (products s))))
      = Some l
      /\ l ∈ products s /\ is_active s l = true
  | None => List.filter (is_active s) (products s) = []
  end.
Proof.
  intros Hb Hr Hsize. unfold pickProduct. cbv zeta.
  pose proof (List.filter_length_le (is_active s) (products s)) as Hle.
  set (act := List.filter (is_active s) (products s)) in *.
  destruct (0 <? length act) eqn:Hlen.
  - apply Nat.ltb_lt in Hlen.
    assert (0 < Z.of_nat (length act) < 2 ^ 53)%Z as Hn.
    { assert (2 ^ 32 < 2 ^ 53)%Z by done. lia. }
    pose proof (randomIndex_range r (length act) Hb Hr Hn) as [Hlo Hhi].
    unfold at_index.
    destruct (randomIndex r (length act) <? 0)%Z eqn:Hneg;
      [apply Z.ltb_lt in Hneg; lia |].
    destruct (act !! Z.to_nat (randomIndex r (length act))) as [l|] eqn:Hl.
    + split; [done |].
      apply list_elem_of_lookup_2, list_elem_of_In, filter_In in Hl as [Hin Hact].
      split; [by apply list_elem_of_In | done].
    + apply lookup_ge_None in Hl. lia.
  - apply Nat.ltb_ge in Hlen. destruct act; [done | simpl in Hlen; lia].
Qed.

Lemma monitoringTick_some r now1 now2 s l :
  pickProduct r s = Some l ->
  heap (monitoringTick r now1 now2 s)
  = alter (set_lastChecked (timestamp now2)) l (heap s)
  /\ logsList (monitoringTick r now1 now2 s)
     = {| logTime := timestamp now1;
          logMessage := lit "Checked " ++ from_option name [] (heap s !! l)
                        ++ lit ": OUT OF STOCK" |}
         :: take 19 (logsList s)
  /\ products (monitoringTick r now1 now2 s) = products s.
Proof.
  intros Hpick. unfold monitoringTick. rewrite Hpick. cbv zeta.
  split; [done |]. split; [| done].
  unfold loadProducts, with_productsList, with_heap. cbn [logsList].
  apply addLogEntry_logsList.
Qed.
End DemoCycle.

(** Against C3 as stated: a cycle on a page with two active products
    checks the first and leaves the second, which has never been checked,
    as it is. *)
Lemma monitoringTick_leaves_active_product_unchecked :
  let kettle :=
    {| Demo.productName := JS.lit "Kettle";
       Demo.productUrl := JS.lit "https://shop.example/kettle";
       Demo.productSelector := JS.lit ".stock";
       Demo.expectedTextField := JS.lit "Sold out";
       Demo.productEmail := JS.lit "me@example.com" |} in
  let s := Demo.run [Demo.DOMContentLoaded;
                     Demo.TimeoutFires 0 0 (JS.lit "2024-01-15T14:30:59.000Z")
                       (JS.lit "2024-01-15T14:30:59.000Z");
                     Demo.SubmitAddProduct kettle 1705329060000
                       (JS.lit "2024-01-15T14:31:00.000Z");
                     Demo.ClickStart (JS.lit "2024-01-15T14:31:01.000Z") 7]
             Demo.init in
  let tick := Demo.IntervalFires 7 (1 # 4) (JS.lit "2024-01-15T14:31:11.000Z")
                (JS.lit "2024-01-15T14:31:11.000Z") in
  Demo.reachable s
  /\ Demo.monitoringActive s = true
  /\ Demo.enabled s tick
  /\ List.filter (Demo.is_active s) (Demo.products s) = [0; 2]
  /\ Demo.pickProduct (1 # 4) s = Some 0
  /\ (Demo.lastChecked <$> Demo.heap (Demo.handle tick s) !! 0)
     = Some (Some (JS.lit "2024-01-15 14:31:11"))
  /\ (Demo.lastChecked <$> Demo.heap (Demo.handle tick s) !! 2) = Some None
  /\ Demo.heap (Demo.handle tick s) !! 2 = Demo.heap s !! 2
  /\ (Demo.logMessage <$> Demo.logsList (Demo.handle tick s))
     = [JS.lit "Checked MacBook Pro M1: OUT OF STOCK";
        JS.lit "Bot monitoring started";
        JS.lit "Ready to monitor products";
        JS.lit "Dashboard loaded successfully";
        JS.lit "Bot initialized successfully";
        JS.lit "Database connection established";
        JS.lit "Ready to monitor products"].
Proof.
  intros kettle s tick.
  split; [apply reachable_run; [apply Demo.reachable_init | deliver_all] |].
  split; [vm_compute; reflexivity |].
  split; [deliver_all |].
  vm_compute. repeat split.
Qed.

(** C3, as the code has it.  A cycle reads the active products of the
    array and, when there is one, checks exactly one of them, the one at
    the index [Math.floor(Math.random() * activeProducts.length)], the
    product being rounded to binary64 before the floor is taken: its name
    goes to the log as out of stock and its [lastChecked] is written; no
    other object is touched, active or not, and the array is as it was.
    With no active product the cycle does nothing.  The draw is a binary64
    value of [0, 1) and the array has a length JavaScript allows. *)
Theorem monitoringTick_checks_one_active_product :
  forall (s : Demo.state) (r : Q) (now1 now2 : JS.jsstring),
    Demo.is_binary64 r -> Demo.is_draw r ->
    (Z.of_nat (length (Demo.products s)) < 2 ^ 32)%Z ->
    let active := List.filter (Demo.is_active s) (Demo.products s) in
    let s' := Demo.monitoringTick r now1 now2 s in
    (active = [] -> s' = s)
    /\ (active <> [] ->
        exists l,
          active !! Z.to_nat (Demo.randomIndex r (length active)) = Some l
          /\ (0 <= Demo.randomIndex r (length active)
                < Z.of_nat (length active))%Z
          /\ l ∈ Demo.products s /\ Demo.is_active s l = true
          /\ Demo.heap s'
             = alter (Demo.set_lastChecked (Demo.timestamp now2)) l (Demo.heap s)
          /\ (forall l', l' <> l -> Demo.heap s' !! l' = Demo.heap s !! l')
          /\ Demo.logsList s'
             = {| Demo.logTime := Demo.timestamp now1;
                  Demo.logMessage :=
                    JS.lit "Checked "
                    ++ from_option Demo.name [] (Demo.heap s !! l)
                    ++ JS.lit ": OUT OF STOCK" |}
                 :: take 19 (Demo.logsList s)
          /\ Demo.products s' = Demo.products s).
Proof.
  intros s r now1 now2 Hb Hr Hsize active s'.
  pose proof (pickProduct_spec r s Hb Hr Hsize) as Hpick.
  destruct (Demo.pickProduct r s) as [l|] eqn:Hp.
  - destruct Hpick as (Hidx & Hin & Hact).
    destruct (monitoringTick_some r now1 now2 s l Hp) as (Hheap & Hlog & Hprods).
    split.
    + intros Hnil. subst active. rewrite Hnil in Hidx. done.
    + intros Hne. exists l. split; [done |]. split.
      { apply randomIndex_range; [done | done |].
        pose proof (List.filter_length_le (Demo.is_active s) (Demo.products s))
          as Hle.
        assert (2 ^ 32 < 2 ^ 53)%Z by done.
        assert (0 < length active); [| subst active; lia].
        destruct active; [done | simpl; lia]. }
      repeat split; try done.
      intros l' Hne'. subst s'. rewrite Hheap. by apply list_lookup_alter_ne.
  - split.
    + intros _. subst s'. unfold Demo.monitoringTick. by rewrite Hp.
    + intros Hne. done.
Qed.

(** Three active products, and a draw whose product with 3 is just below
    2 and rounds to 2: the cycle checks the third of them, the object at
    reference 3, and leaves the objects at 0 and 2, the two other active
    products, as they were. *)
Lemma monitoringTick_checks_one_active_product_witness :
  let kettle :=
    {| Demo.productName := JS.lit "Kettle";
       Demo.productUrl := JS.lit "https://shop.example/kettle";
       Demo.productSelector := JS.lit ".stock";
       Demo.expectedTextField := JS.lit "Sold out";
       Demo.productEmail := JS.lit "me@example.com" |} in
  let lamp :=
    {| Demo.productName := JS.lit "Lamp";
       Demo.productUrl := JS.lit "https://shop.example/lamp";
       Demo.productSelector := JS.lit ".stock";
       Demo.expectedTextField := JS.lit "Sold out";
       Demo.productEmail := JS.lit "me@example.com" |} in
  let s := Demo.run [Demo.DOMContentLoaded;
                     Demo.SubmitAddProduct kettle 1705329060000
                       (JS.lit "2024-01-15T14:31:00.000Z");
                     Demo.SubmitAddProduct lamp 1705329061000
                       (JS.lit "2024-01-15T14:31:01.000Z")]
             Demo.init in
  let r := (6004799503160661 # 9007199254740992)%Q in
  let s' := Demo.monitoringTick r (JS.lit "2024-01-15T14:31:10.000Z")
              (JS.lit "2024-01-15T14:31:10.000Z") s in
  List.filter (Demo.is_active s) (Demo.products s) = [0; 2; 3]
  /\ Qfloor (r * 3) = 1%Z
  /\ Demo.randomIndex r 3 = 2%Z
  /\ Demo.heap s' !! 0 = Demo.heap s !! 0
  /\ Demo.heap s' !! 2 = Demo.heap s !! 2
  /\ Demo.heap s'
     = alter (Demo.set_lastChecked (JS.lit "2024-01-15 14:31:10")) 3
         (Demo.heap s).
Proof.
  intros kettle lamp s r s'.
  assert (List.filter (Demo.is_active s) (Demo.products s) = [0; 2; 3])
    as Hactive by (vm_compute; reflexivity).
  assert (Demo.randomIndex r 3 = 2%Z) as Hindex by (vm_compute; reflexivity).
  assert (Demo.is_binary64 r) as Hb.
  { exists 6004799503160661%Z, (-53)%Z.
    split; [reflexivity |]. split; [split; discriminate | reflexivity]. }
  assert (Demo.is_draw r) as Hr by (split; [discriminate | reflexivity]).
  assert (Z.of_nat (length (Demo.products s)) < 2 ^ 32)%Z as Hsize
    by (vm_compute; reflexivity).
  destruct (monitoringTick_checks_one_active_product s r
              (JS.lit "2024-01-15T14:31:10.000Z")
              (JS.lit "2024-01-15T14:31:10.000Z") Hb Hr Hsize) as [_ Hsome].
  destruct Hsome as (l & Hl & _ & _ & _ & Hheap & Hrest & _);
    [rewrite Hactive; discriminate |].
  rewrite Hactive in Hl. change (length [0; 2; 3]) with 3 in Hl.
  rewrite Hindex in Hl. injection Hl as <-.
  split; [exact Hactive |]. split; [reflexivity |]. split; [exact Hindex |].
  split; [apply Hrest; discriminate |].
  split; [apply Hrest; discriminate |].
  exact Hheap.
Defined.

(** ** The demo's check of one product *)

Section DemoCheck.
Import JS Demo.

#[local] Arguments keepRecent : simpl never.
#[local] Arguments lit : simpl never.
#[local] Arguments timestamp : simpl never.

Lemma drawInStock_spec r : drawInStock r = true <-> (1 # 2 < r)%Q.
Proof.
  unfold drawInStock. rewrite Qgt_alt.
  destruct (r ?= 1 # 2)%Q; split; done.
Qed.

Lemma testProductDone_record l r now1 now2 s :
  checkRecord (testProductDone l r now1 now2 s)
  = Some (lit "Tested " ++ from_option name [] (heap s !! l) ++ lit ": "
          ++ (if drawInStock r then lit "IN STOCK" else lit "OUT OF STOCK")).
Proof.
  unfold checkRecord, testProductDone. cbv zeta.
  unfold loadProducts, with_productsList, with_heap. cbn [logsList].
  rewrite addLogEntry_logsList. done.
Qed.

Lemma outside_check_addLogEntry now m s :
  outside_check (addLogEntry now m s) = outside_check s.
Proof. done. Qed.

Lemma outside_check_showNotification m t s :
  outside_check (showNotification m t s) = outside_check s.
Proof. done. Qed.

Lemma outside_check_loadProducts s :
  outside_check (loadProducts s) = outside_check s.
Proof. done. Qed.

Lemma outside_check_checked v l s :
  outside_check (with_heap (alter (set_lastChecked v) l (heap s)) s)
  = outside_check s.
Proof.
  unfold outside_check, with_heap, with_productsList, with_logsList, with_shown.
  simpl. by rewrite map_forget_checked.
Qed.

Lemma testProductDone_outside l r now1 now2 s :
  outside_check (testProductDone l r now1 now2 s) = outside_check s.
Proof.
  unfold testProductDone. cbv zeta.
  rewrite outside_check_loadProducts, outside_check_checked,
    outside_check_addLogEntry, outside_check_showNotification. done.
Qed.
End DemoCheck.

(** Against C4 as stated: two runs of the check of one product, from one
    state and at one time, that differ in the random draw only. *)
Lemma testProduct_same_product_two_outcomes :
  let s := Demo.run [Demo.DOMContentLoaded;
                     Demo.TimeoutFires 0 0 (JS.lit "2024-01-15T14:30:59.000Z")
                       (JS.lit "2024-01-15T14:30:59.000Z");
                     Demo.ClickTest 1]
             Demo.init in
  let now := JS.lit "2024-01-15T14:31:02.000Z" in
  Demo.reachable s
  /\ Demo.timeouts s = [Demo.TestResult 0]
  /\ Demo.enabled s (Demo.TimeoutFires 0 (7 # 10) now now)
  /\ Demo.enabled s (Demo.TimeoutFires 0 (3 # 10) now now)
  /\ Demo.checkRecord (Demo.handle (Demo.TimeoutFires 0 (7 # 10) now now) s)
     = Some (JS.lit "Tested MacBook Pro M1: IN STOCK")
  /\ Demo.checkRecord (Demo.handle (Demo.TimeoutFires 0 (3 # 10) now now) s)
     = Some (JS.lit "Tested MacBook Pro M1: OUT OF STOCK")
  /\ Demo.checkRecord (Demo.handle (Demo.TimeoutFires 0 (7 # 10) now now) s)
     <> Demo.checkRecord (Demo.handle (Demo.TimeoutFires 0 (3 # 10) now now) s).
Proof.
  intros s now.
  split; [apply reachable_run; [apply Demo.reachable_init | deliver_all] |].
  split; [vm_compute; reflexivity |].
  split; [deliver_all |].
  split; [deliver_all |].
  vm_compute. repeat split. discriminate.
Qed.

(** C4, as the code has it.  The demo's check does not look at the page
    of the product: it reports IN STOCK exactly when the random draw is
    above one half, so its outcome is a function of the draw alone and two
    runs with draws on the same side of one half, at the same readings of
    the clock, end in the same state.  A run writes the notification, the
    log entry, the [lastChecked] of the object it closed over and the
    rendered rows, and nothing else: the state it leaves is the state it
    found with one notification more, the entry on top of the nineteen
    latest of the log, the one field of the one object written and the
    rows rendered anew; every other field of the page and of every object
    is as it was. *)
Theorem testProduct_outcome_is_the_draw :
  forall (s : Demo.state) (l : nat) (r : Q) (now1 now2 : JS.jsstring),
    let s' := Demo.testProductDone l r now1 now2 s in
    let pname := from_option Demo.name [] (Demo.heap s !! l) in
    let checked :=
      alter (Demo.set_lastChecked (Demo.timestamp now2)) l (Demo.heap s) in
    Demo.checkRecord s'
    = Some (JS.lit "Tested " ++ pname ++ JS.lit ": "
            ++ (if Demo.drawInStock r
                then JS.lit "IN STOCK" else JS.lit "OUT OF STOCK"))
    /\ (Demo.drawInStock r = true <-> (1 # 2 < r)%Q)
    /\ s'
       = {| Demo.heap := checked;
            Demo.products := Demo.products s;
            Demo.monitoringActive := Demo.monitoringActive s;
            Demo.monitoringInterval := Demo.monitoringInterval s;
            Demo.intervals := Demo.intervals s;
            Demo.timeouts := Demo.timeouts s;
            Demo.listening := Demo.listening s;
            Demo.productsList :=
              omap (fun l' => checked !! l') (Demo.products s);
            Demo.totalProducts := Demo.totalProducts s;
            Demo.activeProducts := Demo.activeProducts s;
            Demo.notificationsSent := Demo.notificationsSent s;
            Demo.monitoringStatus := Demo.monitoringStatus s;
            Demo.logsList :=
              {| Demo.logTime := Demo.timestamp now1;
                 Demo.logMessage :=
                   JS.lit "Tested " ++ pname ++ JS.lit ": "
                   ++ (if Demo.drawInStock r
                       then JS.lit "IN STOCK" else JS.lit "OUT OF STOCK") |}
              :: take 19 (Demo.logsList s);
            Demo.shown :=
              Demo.shown s
              ++ [if Demo.drawInStock r
                  then (pname ++ JS.lit " is IN STOCK! " ++ Demo.partyPopper,
                        "success")
                  else (pname ++ JS.lit " is out of stock.", "info")];
            Demo.modal := Demo.modal s |}
    /\ (forall l' p,
          Demo.heap s !! l' = Some p ->
          exists p',
            Demo.heap s' !! l' = Some p'
            /\ Demo.forget_lastChecked p' = Demo.forget_lastChecked p
            /\ (l' <> l -> p' = p))
    /\ length (Demo.heap s') = length (Demo.heap s)
    /\ Demo.outside_check s' = Demo.outside_check s
    /\ forall r',
         Demo.drawInStock r' = Demo.drawInStock r ->
         Demo.testProductDone l r' now1 now2 s = s'.
Proof.
  intros s l r now1 now2 s' pname checked.
  split; [apply testProductDone_record |].
  split; [apply drawInStock_spec |].
  assert (Demo.heap s' = checked) as Hheap by done.
  split.
  { subst s' pname checked. unfold Demo.testProductDone. cbv zeta.
    unfold Demo.loadProducts, Demo.objects, Demo.addLogEntry,
      Demo.showNotification, Demo.with_heap, Demo.with_productsList,
      Demo.with_logsList, Demo.with_shown.
    cbv zeta.
    cbn [Demo.heap Demo.products Demo.monitoringActive Demo.monitoringInterval
         Demo.intervals Demo.timeouts Demo.listening Demo.productsList
         Demo.totalProducts Demo.activeProducts Demo.notificationsSent
         Demo.monitoringStatus Demo.logsList Demo.shown Demo.modal].
    rewrite keepRecent_take by lia.
    destruct (Demo.drawInStock r); reflexivity. }
  split.
  { intros l' p Hp. rewrite Hheap. subst checked.
    destruct (decide (l' = l)) as [->|Hne].
    - exists (Demo.set_lastChecked (Demo.timestamp now2) p).
      rewrite list_lookup_alter_eq, Hp. done.
    - exists p. rewrite list_lookup_alter_ne by done. done. }
  split; [rewrite Hheap; subst checked; apply length_alter |].
  split; [apply testProductDone_outside |].
  intros r' Hr'. subst s'. unfold Demo.testProductDone. by rewrite Hr'.
Qed.

(** ** The counters of the demo *)

Section DemoStats.
Import JS Demo.

#[local] Arguments keepRecent : simpl never.
#[local] Arguments lit : simpl never.
#[local] Arguments timestamp : simpl never.

(** Counting references is counting the objects they refer to. *)
Lemma count_refs (F : nat -> bool) (f : product -> bool)
    (h : list product) (ls : list nat) :
  (forall l p, h !! l = Some p -> F l = f p) ->
  (forall l, l ∈ ls -> l < length h) ->
  length (List.filter F ls) = length (List.filter f (omap (fun l => h !! l) ls)).
Proof.
  intros HF. induction ls as [|l ls IH]; intros Hrefs; simpl; [done |].
  destruct (lookup_lt_is_Some_2 h l) as [p Hp];
    [apply Hrefs; by left |].
  rewrite Hp. simpl. rewrite (HF l p Hp).
  assert (forall l', l' ∈ ls -> l' < length h) as Hrefs'
    by (intros l' Hl'; apply Hrefs; by right).
  destruct (f p); simpl; rewrite IH; done.
Qed.

(** Removing from a list what [g] selects lowers a count by what was both
    counted and selected. *)
Lemma count_after_filter {A} (f g : A -> bool) (ls : list A) :
  length (List.filter f (List.filter (fun x => negb (g x)) ls))
  = length (List.filter f ls)
    - length (List.filter (fun x => f x && g x) ls).
Proof.
  induction ls as [|x ls IH]; simpl; [done |].
  pose proof (List.filter_length_le (fun x => f x && g x) ls) as Hle1.
  assert (length (List.filter (fun x => f x && g x) ls)
          <= length (List.filter f ls)) as Hle.
  { clear. induction ls as [|y ls IH]; simpl; [done |].
    destruct (f y), (g y); simpl; lia. }
  destruct (f x) eqn:Hf, (g x) eqn:Hg; simpl; rewrite ?Hf; simpl; lia.
Qed.

Lemma negb_is_active_object s l p :
  heap s !! l = Some p -> negb (is_active s l) = negb (isActive p).
Proof. intros H. unfold is_active. by rewrite H. Qed.

(** The counter as [updateStats] computes it, over the objects. *)
Lemma notificationsSent_objects s :
  invariant s -> listening s = true ->
  notificationsSent s
  = length (List.filter (fun p => negb (isActive p)) (objects s)).
Proof.
  intros Hinv Hlis. destruct (inv_stats s Hinv Hlis) as (_ & _ & ->).
  apply count_refs; [apply negb_is_active_object | apply Hinv].
Qed.

Lemma deleteProduct_notificationsSent productId s :
  invariant s -> listening s = true ->
  notificationsSent (deleteProduct productId true s)
  = notificationsSent s
    - length (List.filter
                (fun p => negb (isActive p) && (id p =? productId)%Z)
                (objects s)).
Proof.
  intros Hinv Hlis. rewrite (notificationsSent_objects s Hinv Hlis).
  change (notificationsSent (deleteProduct productId true s))
    with (length (List.filter (fun l => negb (is_active s l))
                    (List.filter (fun l => negb (has_id s productId l))
                       (products s)))).
  rewrite (count_after_filter (fun l => negb (is_active s l))
             (has_id s productId)).
  f_equal.
  - apply count_refs; [apply negb_is_active_object | apply Hinv].
  - apply count_refs; [| apply Hinv].
    intros l p Hp. unfold is_active, has_id. by rewrite Hp.
Qed.
End DemoStats.

(** The page as it loads: the counter shows one notification, none was
    ever shown or sent; deleting the inactive sample product brings it
    back to zero. *)
Example notificationsSent_on_load :
  let s := Demo.run [Demo.DOMContentLoaded] Demo.init in
  Demo.reachable s
  /\ Demo.notificationsSent s = 1
  /\ Demo.shown s = []
  /\ Demo.notificationsSent (Demo.handle (Demo.ClickDelete 2 true) s) = 0
  /\ Demo.notificationsSent (Demo.handle (Demo.ClickDelete 1 true) s) = 1.
Proof.
  intros s. split; [| vm_compute; repeat split].
  apply reachable_run; [apply Demo.reachable_init |]. repeat split.
Qed.

(** ** The engine: evaluation and the product state machine *)

Section EngineFacts.
Import JS Engine.

Lemma trimmed_to_iff ws (t u : text) :
  trimmed_to ws t u <-> trim_with ws t = u.
Proof.
  split.
  - intros (pre & post & -> & Hpre & Hpost & Hhd & Hlast).
    by apply trim_with_unique.
  - intros <-. destruct (trim_with_split ws t)
      as (pre & post & Heq & Hpre & Hpost & Hhd & Hlast).
    by exists pre, post.
Qed.

Lemma lifecycle_of_deliver_other r e id :
  product_id r <> id -> lifecycle_of (deliver r e) id = lifecycle_of e id.
Proof.
  intros Hne. unfold deliver, lifecycle_of.
  destruct (store e !! product_id r) as [p|]; [| done].
  destruct (on_check r p) as [p' ns]. simpl. by rewrite lookup_insert_ne.
Qed.

Lemma on_check_suspended r p : state p = Suspended -> on_check r p = (p, []).
Proof. intros H. unfold on_check. by rewrite H. Qed.

Lemma on_check_state r p :
  state (on_check r p).1
  = match state p, result r with
    | Active, InStock => Suspended
    | st, _ => st
    end.
Proof.
  unfold on_check. destruct (state p) eqn:Hst; [| exact Hst].
  by destruct (result r).
Qed.

(** A suspended product stays suspended. *)
Lemma suspended_stays i e id :
  lifecycle_of e id = Some Suspended ->
  lifecycle_of (handle i e) id = Some Suspended.
Proof.
  intros Hs. destruct i as [r|id']; simpl.
  - destruct (decide (product_id r = id)) as [Heq|Hne];
      [| by rewrite lifecycle_of_deliver_other].
    unfold deliver, lifecycle_of in *. rewrite Heq.
    destruct (store e !! id) as [p|] eqn:Hp; [| done].
    injection Hs as Hs. rewrite (on_check_suspended r p Hs).
    simpl. rewrite lookup_insert_eq. simpl. by rewrite Hs.
  - unfold deactivate, lifecycle_of in *. simpl.
    rewrite lookup_alter. case_decide; [subst id' | done].
    by destruct (store e !! id).
Qed.

(** A product that is not in the store does not appear. *)
Lemma absent_stays i e id :
  lifecycle_of e id = None -> lifecycle_of (handle i e) id = None.
Proof.
  intros Hs. destruct i as [r|id']; simpl.
  - destruct (decide (product_id r = id)) as [Heq|Hne];
      [| by rewrite lifecycle_of_deliver_other].
    unfold deliver, lifecycle_of in *. rewrite Heq.
    destruct (store e !! id) as [p|] eqn:Hp; [done |]. by rewrite Hp.
  - unfold deactivate, lifecycle_of in *. simpl.
    rewrite lookup_alter. case_decide; [subst id' | done].
    by destruct (store e !! id).
Qed.

(** One input adds a notification about a product exactly when it takes
    the product through a restock transition. *)
Lemma handle_notifications id i e :
  length (notifications_for id (handle i e))
  = length (notifications_for id e) + (if is_restock id i e then 1 else 0).
Proof.
  destruct i as [r|id']; [| unfold notifications_for; simpl; lia].
  unfold is_restock. simpl handle. unfold deliver, notifications_for, lifecycle_of.
  destruct (store e !! product_id r) as [p|] eqn:Hp.
  - pose proof (on_check_state r p) as Hst.
    unfold on_check in *. destruct (state p) eqn:Hstate.
    + destruct (result r) eqn:Hres; simpl in *;
        rewrite ?List.filter_app, ?length_app, ?app_nil_r; simpl.
      * destruct (decide (product_id r = id)) as [Heq|Hne].
        -- rewrite (proj2 (Z.eqb_eq _ _) Heq). simpl.
           rewrite bool_decide_eq_true_2; [done |].
           rewrite <- Heq, Hp, lookup_insert_eq. simpl. by rewrite Hstate.
        -- rewrite (proj2 (Z.eqb_neq _ _) Hne). simpl.
           rewrite bool_decide_eq_false_2; [lia | tauto].
      * rewrite bool_decide_eq_false_2; [lia |]. intros (_ & ? & _). done.
      * rewrite bool_decide_eq_false_2; [lia |]. intros (_ & ? & _). done.
      * rewrite bool_decide_eq_false_2; [lia |]. intros (_ & ? & _). done.
    + simpl. rewrite app_nil_r.
      rewrite bool_decide_eq_false_2; [lia |].
      intros (Heq & _ & Hact & _). rewrite <- Heq, Hp in Hact.
      simpl in Hact. congruence.
  - rewrite bool_decide_eq_false_2; [lia |].
    intros (Heq & _ & Hact & _). rewrite <- Heq, Hp in Hact. done.
Qed.

Lemma run_notifications id ins e :
  length (notifications_for id (run ins e))
  = length (notifications_for id e) + restocks id ins e.
Proof.
  revert e. induction ins as [|i ins IH]; intros e; simpl; [lia |].
  rewrite IH, handle_notifications. lia.
Qed.

Lemma is_restock_needs_active id i e :
  is_restock id i e = true ->
  lifecycle_of e id = Some Active
  /\ lifecycle_of (handle i e) id = Some Suspended.
Proof.
  destruct i as [r|id']; simpl; [| done].
  intros H. apply bool_decide_eq_true_1 in H. tauto.
Qed.

Lemma restocks_not_active id ins e :
  lifecycle_of e id <> Some Active -> restocks id ins e = 0.
Proof.
  revert e. induction ins as [|i ins IH]; intros e Hna; simpl; [done |].
  destruct (is_restock id i e) eqn:Hr.
  - apply is_restock_needs_active in Hr as [Hact _]. done.
  - rewrite IH; [done |].
    destruct (lifecycle_of e id) as [[]|] eqn:Hl; [done | |].
    + rewrite (suspended_stays i e id Hl). done.
    + rewrite (absent_stays i e id Hl). done.
Qed.

(** A product goes through at most one restock transition. *)
Lemma restocks_at_most_one id ins e : restocks id ins e <= 1.
Proof.
  revert e. induction ins as [|i ins IH]; intros e; simpl; [lia |].
  destruct (is_restock id i e) eqn:Hr.
  - apply is_restock_needs_active in Hr as [_ Hsusp].
    rewrite restocks_not_active; [lia | congruence].
  - simpl. apply IH.
Qed.

Lemma run_suspended ins e id :
  lifecycle_of e id = Some Suspended ->
  lifecycle_of (run ins e) id = Some Suspended
  /\ notifications_for id (run ins e) = notifications_for id e.
Proof.
  revert e. induction ins as [|i ins IH]; intros e Hs; simpl; [done |].
  destruct (IH (handle i e) (suspended_stays i e id Hs)) as [Hl Hn].
  split; [done |]. rewrite Hn. clear IH Hl Hn.
  destruct i as [r|id']; [| done]. simpl. unfold deliver, notifications_for.
  destruct (store e !! product_id r) as [p|] eqn:Hp; [| done].
  unfold on_check. destruct (state p) eqn:Hstate; simpl;
    [| by rewrite app_nil_r].
  destruct (result r); simpl; rewrite ?app_nil_r; try done.
  rewrite List.filter_app. simpl.
  destruct (decide (product_id r = id)) as [Heq|Hne].
  - unfold lifecycle_of in Hs. rewrite <- Heq, Hp in Hs. simpl in Hs. congruence.
  - rewrite (proj2 (Z.eqb_neq _ _) Hne). by rewrite app_nil_r.
Qed.
End EngineFacts.

(** C2.  [evaluate] returns [ExtractFailed] when nothing was extracted;
    otherwise it returns [OutOfStock] exactly when the extracted text,
    without its leading and trailing white space, is the marker character
    for character, and [InStock] in every other case. *)
Theorem evaluate_classification :
  forall (ws : N -> bool) (unavailable_marker : Engine.text),
    Engine.evaluate ws Engine.NotFound unavailable_marker = Engine.ExtractFailed
    /\ forall t : Engine.text,
         (Engine.evaluate ws (Engine.Found t) unavailable_marker
          = Engine.OutOfStock
          <-> JS.trim_with ws t = unavailable_marker)
         /\ (Engine.evaluate ws (Engine.Found t) unavailable_marker
             = Engine.InStock
             <-> JS.trim_with ws t <> unavailable_marker)
         /\ (JS.trim_with ws t = unavailable_marker
             <-> Engine.trimmed_to ws t unavailable_marker).
Proof.
  intros ws marker. split; [done |]. intros t.
  unfold Engine.evaluate.
  split; [| split].
  - case_bool_decide; split; done.
  - case_bool_decide; split; done.
  - symmetry. apply trimmed_to_iff.
Qed.

(** The scenario of the specification, with the white space of
    JavaScript. *)
Example evaluate_scenario :
  let marker := JS.lit "Currently unavailable" in
  Engine.evaluate JS.is_space (Engine.Found (JS.lit "Currently unavailable")) marker
  = Engine.OutOfStock
  /\ Engine.evaluate JS.is_space
       (Engine.Found (JS.lit "  Currently unavailable ")) marker
     = Engine.OutOfStock
  /\ Engine.evaluate JS.is_space (Engine.Found (JS.lit "In Stock")) marker
     = Engine.InStock
  /\ Engine.evaluate JS.is_space
       (Engine.Found (JS.lit "currently unavailable")) marker
     = Engine.InStock
  /\ Engine.evaluate JS.is_space Engine.NotFound marker = Engine.ExtractFailed.
Proof. vm_compute. repeat split. Qed.

(** C1.  An [InStock] result for an active product suspends it and
    enqueues exactly one notification, about that product; whatever comes
    later, a stale [InStock] included, the product stays suspended and no
    further notification about it is enqueued.  Over every run, from every
    store, the notifications about a product are as many as its restock
    transitions, and there is at most one. *)
Theorem restock_notifies_once :
  forall (e : Engine.engine) (r : Engine.CheckResult) (p : Engine.product),
    Engine.store e !! Engine.product_id r = Some p ->
    Engine.state p = Engine.Active ->
    Engine.result r = Engine.InStock ->
    let id := Engine.product_id r in
    let e' := Engine.deliver r e in
    Engine.lifecycle_of e' id = Some Engine.Suspended
    /\ Engine.outbox e'
       = Engine.outbox e
         ++ [{| Engine.about := id;
                Engine.sent_to := Engine.notification_target p;
                Engine.sent_at := Engine.timestamp r |}]
    /\ (forall later : list Engine.input,
          Engine.lifecycle_of (Engine.run later e') id = Some Engine.Suspended
          /\ Engine.notifications_for id (Engine.run later e')
             = Engine.notifications_for id e')
    /\ (forall (e0 : Engine.engine) (ins : list Engine.input),
          length (Engine.notifications_for id (Engine.run ins e0))
          = length (Engine.notifications_for id e0)
            + Engine.restocks id ins e0
          /\ Engine.restocks id ins e0 <= 1).
Proof.
  intros e r p Hp Hact Hres id e'.
  assert (Engine.lifecycle_of e' id = Some Engine.Suspended) as Hsusp.
  { subst e' id. unfold Engine.deliver, Engine.lifecycle_of. rewrite Hp.
    unfold Engine.on_check. rewrite Hact, Hres. simpl.
    by rewrite lookup_insert_eq. }
  split; [exact Hsusp |]. split.
  - subst e'. unfold Engine.deliver. rewrite Hp.
    unfold Engine.on_check. rewrite Hact, Hres. done.
  - split.
    + intros later. by apply run_suspended.
    + intros e0 ins. split; [apply run_notifications | apply restocks_at_most_one].
Qed.

Lemma restock_notifies_once_witness :
  let kettle :=
    {| Engine.state := Engine.Active;
       Engine.notification_target := JS.lit "me@example.com";
       Engine.last_checked_at := None;
       Engine.last_error := None |} in
  let e := {| Engine.store := {[ 7%Z := kettle ]}; Engine.outbox := [] |} in
  let restocked t :=
    {| Engine.result := Engine.InStock; Engine.product_id := 7;
       Engine.timestamp := t; Engine.diagnostic := None |} in
  Engine.outbox (Engine.deliver (restocked 100%Z) e)
  = [{| Engine.about := 7; Engine.sent_to := JS.lit "me@example.com";
        Engine.sent_at := 100 |}]
  /\ Engine.notifications_for 7
       (Engine.run [Engine.Result (restocked 160%Z); Engine.Deactivate 7;
                    Engine.Result (restocked 220%Z)]
          (Engine.deliver (restocked 100%Z) e))
     = Engine.notifications_for 7 (Engine.deliver (restocked 100%Z) e).
Proof.
  intros kettle e restocked.
  assert (Engine.store e !! Engine.product_id (restocked 100%Z) = Some kettle)
    as Hp by (vm_compute; reflexivity).
  destruct (restock_notifies_once e (restocked 100%Z) kettle Hp
              eq_refl eq_refl) as (_ & Hout & Hlater & _).
  split; [exact Hout |].
  apply (Hlater [Engine.Result (restocked 160%Z); Engine.Deactivate 7;
                 Engine.Result (restocked 220%Z)]).
Defined.

(** * Further properties of the front-ends *)

(** ** Log classes and shortened URLs *)

Section DashboardViewFacts.
Import JS Dashboard DashboardView.

Lemma starts_with_spec pat s :
  starts_with pat s = true <-> exists post, s = pat ++ post.
Proof.
  revert s. induction pat as [|p pat IH]; intros s; simpl.
  - split; [eauto | done].
  - destruct s as [|c s].
    + split; [done | intros [post H]; discriminate].
    + rewrite andb_true_iff, N.eqb_eq, IH. split.
      * intros [-> [post ->]]. eauto.
      * intros [post [= -> ->]]. eauto.
Qed.

(** The search of [includes] finds exactly the strings that hold the
    pattern. *)
Lemma includes_spec pat s : includes pat s = true <-> contains pat s.
Proof.
  unfold contains. induction s as [|c s IH].
  - simpl. rewrite orb_false_r, starts_with_spec. split.
    + intros [post H]. exists [], post. done.
    + intros (pre & post & H). destruct pre as [|d pre]; [eauto |].
      discriminate.
  - cbn [includes]. rewrite orb_true_iff, starts_with_spec, IH. split.
    + intros [[post H]|(pre & post & H)].
      * exists [], post. done.
      * exists (c :: pre), post. simpl. by rewrite H.
    + intros (pre & post & H). destruct pre as [|d pre].
      * left. eauto.
      * right. injection H as -> H. eauto.
Qed.

Lemma includes_false_spec pat s : includes pat s = false <-> ~ contains pat s.
Proof.
  rewrite <- includes_spec. destruct (includes pat s); split; done.
Qed.
End DashboardViewFacts.

(** X1.  [getLogClass] looks for the three words in order: a line is an
    error line exactly when it holds ERROR, whatever else it holds; a
    warning line when it holds WARNING and not ERROR; an info line when it
    holds INFO and neither of the others; and it has no class exactly when
    it holds none of the three. *)
Theorem getLogClass_priority :
  forall log : JS.jsstring,
    let has w := DashboardView.contains (JS.lit w) log in
    (Dashboard.getLogClass log = "log-error" <-> has "ERROR")
    /\ (Dashboard.getLogClass log = "log-warning"
        <-> ~ has "ERROR" /\ has "WARNING")
    /\ (Dashboard.getLogClass log = "log-info"
        <-> ~ has "ERROR" /\ ~ has "WARNING" /\ has "INFO")
    /\ (Dashboard.getLogClass log = ""
        <-> ~ has "ERROR" /\ ~ has "WARNING" /\ ~ has "INFO").
Proof.
  intros log has. subst has. cbv beta.
  rewrite <- !includes_false_spec, <- !includes_spec.
  unfold Dashboard.getLogClass.
  destruct (JS.includes (JS.lit "ERROR") log),
    (JS.includes (JS.lit "WARNING") log),
    (JS.includes (JS.lit "INFO") log);
    repeat split; intros; try done; try tauto;
    repeat match goal with H : _ /\ _ |- _ => destruct H end; done.
Qed.

(** X2.  [truncateUrl] returns a URL of at most [maxLength] code units as
    it is, and otherwise its first [maxLength] code units followed by
    three dots; the result is therefore longer than the URL exactly when
    the URL exceeds [maxLength] by one or two. *)
Theorem truncateUrl_length :
  forall (url : JS.jsstring) (maxLength : nat),
    let short := DashboardView.truncateUrl url maxLength in
    (length url <= maxLength -> short = url)
    /\ (maxLength < length url ->
        short = take maxLength url ++ JS.lit "..."
        /\ length short = maxLength + 3)
    /\ take maxLength short = take maxLength url
    /\ length short <= maxLength + 3
    /\ (length url < length short
        <-> maxLength < length url < maxLength + 3).
Proof.
  intros url maxLength short. subst short. unfold DashboardView.truncateUrl.
  destruct (maxLength <? length url) eqn:Hlen.
  - apply Nat.ltb_lt in Hlen.
    assert (length (take maxLength url ++ JS.lit "...") = maxLength + 3) as Hl.
    { rewrite length_app, length_take. simpl. lia. }
    split; [lia |]. split; [done |]. split; [| rewrite Hl; lia].
    rewrite take_app_le by (rewrite length_take; lia).
    rewrite take_take. f_equal. lia.
  - apply Nat.ltb_ge in Hlen.
    split; [done |]. split; [lia |]. split; [done |]. lia.
Qed.

(** ** What a submission of the form does to the page *)

Section SubmissionFacts.
Import JS Regex Dashboard DashboardView.

Lemma plain_no_at s : plain s -> occurrences 64 s = 0.
Proof.
  intros [_ H]. unfold occurrences.
  induction H as [|c s [_ Hc] _ IH]; simpl; [done |].
  by rewrite (proj2 (N.eqb_neq c 64) Hc).
Qed.

Lemma plain_no_space s : plain s -> Forall (fun c => is_space c = false) s.
Proof. intros [_ H]. eapply Forall_impl; [exact H |]. by intros c [? _]. Qed.

Lemma plain_length s : plain s -> 1 <= length s.
Proof. intros [Hne _]. destruct s; [done | simpl; lia]. Qed.

Lemma occurrences_app c s t :
  occurrences c (s ++ t) = occurrences c s + occurrences c t.
Proof. unfold occurrences. by rewrite List.filter_app, length_app. Qed.

(** An address the pattern of the form accepts has one [@], no white
    space, and at least five code units. *)
Lemma well_formed_email_shape s :
  well_formed_email s ->
  occurrences 64 s = 1
  /\ Forall (fun c => is_space c = false) s
  /\ 5 <= length s.
Proof.
  intros (a & b & c & -> & Ha & Hb & Hc).
  split; [| split].
  - change (a ++ 64%N :: b ++ 46%N :: c)
      with (a ++ [64%N] ++ b ++ [46%N] ++ c).
    rewrite !occurrences_app, (plain_no_at a), (plain_no_at b), (plain_no_at c) by done.
    reflexivity.
  - apply Forall_app. split; [by apply plain_no_space |].
    constructor; [done |]. apply Forall_app.
    split; [by apply plain_no_space |].
    constructor; [done | by apply plain_no_space].
  - rewrite length_app. simpl. rewrite length_app. simpl.
    apply plain_length in Ha, Hb, Hc. lia.
Qed.

Lemma trim_edges s :
  (forall c, head (trim s) = Some c -> is_space c = false)
  /\ (forall c, last (trim s) = Some c -> is_space c = false).
Proof.
  destruct (trim_with_split is_space s) as (_ & _ & _ & _ & _ & Hhd & Hlast).
  done.
Qed.
End SubmissionFacts.

(** X3.  Every submission of the add-product form shows exactly one
    notification.  When the handler disables the submit button, the last
    thing it does is to enable it again under its label, whatever the
    server answered; and the form is cleared and the data reloaded exactly
    when the request was acceptable and the server answered with
    success. *)
Theorem handleAddProduct_notifies_once_and_restores_button :
  forall (URL_parses : JS.jsstring -> bool) (f : Dashboard.form)
         (server : Dashboard.productData -> Dashboard.response),
    let effects := Dashboard.handleAddProduct URL_parses f server in
    let answered_ok :=
      Dashboard.acceptable URL_parses (Dashboard.readForm f)
      /\ exists message,
           server (Dashboard.readForm f) = Dashboard.ResponseOk message in
    length (List.filter DashboardView.is_notification effects) = 1
    /\ (Dashboard.SubmitButton "Adding..." true ∈ effects ->
        last effects = Some (Dashboard.SubmitButton "Add Product" false))
    /\ (Dashboard.FormReset ∈ effects <-> answered_ok)
    /\ (Dashboard.LoadData ∈ effects <-> answered_ok).
Proof.
  intros URL_parses f server effects answered_ok. subst effects answered_ok.
  destruct (acceptable_dec URL_parses (Dashboard.readForm f)) as [Hok|Hbad].
  - pose proof Hok as Hchecks.
    apply checks_pass in Hchecks as (H1 & H2 & H3).
    unfold Dashboard.handleAddProduct. cbv zeta. rewrite H1, H2, H3. simpl.
    destruct (server (Dashboard.readForm f)) as [m|d|]; simpl;
      (split; [done |]); (split; [done |]);
      rewrite !elem_of_cons, !elem_of_nil; split; split.
    all: try (intros [_ [m' Hm']]; discriminate).
    all: try (intros H; repeat (destruct H as [H|H]; try discriminate); done).
    all: try (intros _; split; [done | by eexists]).
    all: intros _; repeat (first [left; reflexivity | right]).
  - destruct (handleAddProduct_rejects URL_parses f server Hbad) as [m ->].
    simpl. split; [done |]. split.
    + intros H. apply list_elem_of_singleton in H. discriminate.
    + split; split; try (intros [? _]; done);
        intros H; apply list_elem_of_singleton in H; discriminate.
Qed.

(** X4.  What the form posts is clean: each of the five fields of the
    body is non-empty and starts and ends with something other than white
    space, its URL parses, and its e-mail address has exactly one [@], no
    white space anywhere and at least five code units. *)
Theorem handleAddProduct_posts_clean_body :
  forall (URL_parses : JS.jsstring -> bool) (f : Dashboard.form)
         (server : Dashboard.productData -> Dashboard.response)
         (body : Dashboard.productData),
    Dashboard.PostProduct body
      ∈ Dashboard.handleAddProduct URL_parses f server ->
    Forall
      (fun field =>
         field <> []
         /\ (forall c, head field = Some c -> JS.is_space c = false)
         /\ (forall c, last field = Some c -> JS.is_space c = false))
      [Dashboard.name body; Dashboard.url body; Dashboard.selector body;
       Dashboard.expected_text body; Dashboard.email body]
    /\ URL_parses (Dashboard.url body) = true
    /\ DashboardView.occurrences 64 (Dashboard.email body) = 1
    /\ Forall (fun c => JS.is_space c = false) (Dashboard.email body)
    /\ 5 <= length (Dashboard.email body).
Proof.
  intros URL_parses f server body Hin.
  apply posted_body in Hin as [-> Hok].
  destruct Hok as (Hn & Hu & Hs & He & Hm & Hurl & Hmail).
  split.
  - repeat constructor; try done; apply trim_edges.
  - split; [done |]. by apply well_formed_email_shape.
Qed.

Lemma handleAddProduct_posts_clean_body_witness :
  let parses := fun u => JS.starts_with (JS.lit "https://") u in
  let server := fun _ : Dashboard.productData =>
                  Dashboard.ResponseOk (JS.lit "Product added") in
  let f :=
    {| Dashboard.productName := JS.lit " Kettle ";
       Dashboard.productUrl := JS.lit "https://shop.example/p";
       Dashboard.productSelector := JS.lit ".stock";
       Dashboard.expectedText := JS.lit "Sold out";
       Dashboard.productEmail := JS.lit "me@example.com " |} in
  let body := Dashboard.readForm f in
  DashboardView.occurrences 64 (Dashboard.email body) = 1
  /\ 5 <= length (Dashboard.email body).
Proof.
  intros parses server f body.
  assert (Dashboard.PostProduct body
            ∈ Dashboard.handleAddProduct parses f server) as Hin.
  { apply list_elem_of_In. vm_compute. right. left. reflexivity. }
  destruct (handleAddProduct_posts_clean_body parses f server body Hin)
    as (_ & _ & Hone & _ & Hlen).
  split; assumption.
Defined.

(** X5.  [deactivateProduct] of the dashboard does nothing at all when
    the confirmation is declined.  When it is given, exactly one [DELETE]
    request goes out, for that product and before anything is shown, and
    exactly one notification follows; the data is reloaded, and a success
    is shown, only when the server answered with success. *)
Theorem deactivateProduct_asks_first :
  forall (productId : Z) (confirmed : bool) (server : Z -> Dashboard.response),
    let actions := DashboardView.deactivateProduct productId confirmed server in
    (confirmed = false -> actions = [])
    /\ (confirmed = true ->
        head actions = Some (DashboardView.DeleteRequest productId)
        /\ List.filter DashboardView.is_request actions
           = [DashboardView.DeleteRequest productId]
        /\ length (List.filter DashboardView.is_toast actions) = 1)
    /\ (DashboardView.OnPage Dashboard.LoadData ∈ actions
        <-> confirmed = true
            /\ exists message, server productId = Dashboard.ResponseOk message)
    /\ (forall message,
          DashboardView.OnPage (Dashboard.ShowNotification message "success")
            ∈ actions ->
          server productId = Dashboard.ResponseOk message).
Proof.
  intros productId confirmed server actions. subst actions.
  unfold DashboardView.deactivateProduct.
  destruct confirmed; simpl.
  - split; [done |].
    destruct (server productId) as [m|d|]; simpl;
      (split; [done |]); split.
    + rewrite !elem_of_cons. split; [by eauto |].
      intros _. right. right. by left.
    + intros m' H. rewrite !elem_of_cons, elem_of_nil in H.
      repeat (destruct H as [H|H]; try discriminate); [| done].
      by injection H as ->.
    + split; [| intros [_ [m' Hm']]; discriminate].
      intros H. rewrite !elem_of_cons, elem_of_nil in H.
      repeat (destruct H as [H|H]; try discriminate). done.
    + intros m' H. rewrite !elem_of_cons, elem_of_nil in H.
      repeat (destruct H as [H|H]; try discriminate). done.
    + split; [| intros [_ [m' Hm']]; discriminate].
      intros H. rewrite !elem_of_cons, elem_of_nil in H.
      repeat (destruct H as [H|H]; try discriminate). done.
    + intros m' H. rewrite !elem_of_cons, elem_of_nil in H.
      repeat (destruct H as [H|H]; try discriminate). done.
  - split; [done |]. split; [done |]. split.
    + split; [intros H; by apply elem_of_nil in H | intros [? _]; done].
    + intros m H. by apply elem_of_nil in H.
Qed.

(** ** Deleting a product of the demo *)

Section DemoDelete.
Import JS Demo.

Lemma find_none_after_filter {A} (f : A -> bool) (ls : list A) :
  List.find f (List.filter (fun x => negb (f x)) ls) = None.
Proof.
  induction ls as [|x ls IH]; simpl; [done |].
  destruct (f x) eqn:Hx; simpl; [done |]. by rewrite Hx.
Qed.

Lemma filter_sublist {A} (f : A -> bool) (ls : list A) :
  sublist (List.filter f ls) ls.
Proof.
  induction ls as [|x ls IH]; simpl; [constructor |].
  destruct (f x); by constructor.
Qed.

Lemma deleteProduct_products productId s :
  products (deleteProduct productId true s)
  = List.filter (fun l => negb (has_id s productId l)) (products s)
  /\ heap (deleteProduct productId true s) = heap s.
Proof. done. Qed.

Lemma find_product_deleted productId s :
  find_product (deleteProduct productId true s) productId = None.
Proof.
  change (find_product (deleteProduct productId true s) productId)
    with (List.find (has_id s productId)
            (List.filter (fun l => negb (has_id s productId l)) (products s))).
  apply find_none_after_filter.
Qed.
End DemoDelete.

(** X6.  A confirmed [deleteProduct] removes from the array every product
    with the given id and no other, keeping the order of the rest and
    leaving all objects as they are; afterwards the id is unknown, so Test
    and View on it do nothing.  A declined one changes nothing. *)
Theorem deleteProduct_removes_every_match :
  forall (s : Demo.state) (productId : Z),
    let s' := Demo.deleteProduct productId true s in
    Demo.deleteProduct productId false s = s
    /\ (forall l, l ∈ Demo.products s'
                  <-> l ∈ Demo.products s /\ Demo.has_id s productId l = false)
    /\ sublist (Demo.products s') (Demo.products s)
    /\ Demo.heap s' = Demo.heap s
    /\ Demo.find_product s' productId = None
    /\ Demo.testProduct productId s' = s'
    /\ Demo.viewProduct productId s' = s'.
Proof.
  intros s productId s'.
  destruct (deleteProduct_products productId s) as [Hprods Hheap].
  pose proof (find_product_deleted productId s) as Hfind.
  split; [done |]. split; [| split; [| split; [done | split; [done |]]]].
  - intros l. subst s'. rewrite Hprods, !list_elem_of_In, filter_In.
    by rewrite negb_true_iff.
  - subst s'. rewrite Hprods. apply filter_sublist.
  - subst s'. unfold Demo.testProduct, Demo.viewProduct. by rewrite Hfind.
Qed.

(** X7.  No handler of the demo page writes a field of a product other
    than [lastChecked]: over every sequence of events each object keeps
    its id, name, URL, selector, expected text, address, creation time
    and, in particular, its [isActive] flag, so the page never deactivates
    a product, whatever the simulated checks report. *)
Theorem handlers_write_lastChecked_only :
  forall (s : Demo.state) (es : list Demo.event) (l : nat) (p : Demo.product),
    Demo.heap s !! l = Some p ->
    exists p',
      Demo.heap (Demo.run es s) !! l = Some p'
      /\ Demo.id p' = Demo.id p
      /\ Demo.name p' = Demo.name p
      /\ Demo.url p' = Demo.url p
      /\ Demo.selector p' = Demo.selector p
      /\ Demo.expectedText p' = Demo.expectedText p
      /\ Demo.email p' = Demo.email p
      /\ Demo.isActive p' = Demo.isActive p
      /\ Demo.createdAt p' = Demo.createdAt p.
Proof.
  intros s es l p Hp.
  destruct (run_heap_extends es s l p Hp) as (p' & Hp' & Heq).
  exists p'. split; [exact Hp' |].
  unfold Demo.forget_lastChecked in Heq. injection Heq as -> -> -> -> -> -> -> ->.
  repeat split.
Qed.

Lemma handlers_write_lastChecked_only_witness :
  let es := [Demo.DOMContentLoaded;
             Demo.ClickTest 1;
             Demo.TimeoutFires 1 (7 # 10) (JS.lit "2024-01-15T14:31:02.000Z")
               (JS.lit "2024-01-15T14:31:02.000Z")] in
  exists p',
    Demo.heap (Demo.run es Demo.init) !! 0 = Some p'
    /\ Demo.isActive p' = true.
Proof.
  intros es.
  destruct (handlers_write_lastChecked_only Demo.init es 0
              {| Demo.id := 1;
                 Demo.name := JS.lit "MacBook Pro M1";
                 Demo.url := JS.lit "https://www.amazon.in/Apple-MacBook-Chip-13-inch-512GB/dp/B08N5WRWNW";
                 Demo.selector := JS.lit ".a-color-price";
                 Demo.expectedText := JS.lit "Currently unavailable";
                 Demo.email := JS.lit "user@example.com";
                 Demo.isActive := true;
                 Demo.lastChecked := Some (JS.lit "2024-01-15 14:25:00");
                 Demo.createdAt := JS.lit "2024-01-15 10:00:00" |} eq_refl)
    as (p' & Hp' & _ & _ & _ & _ & _ & _ & Hact & _).
  exists p'. split; [exact Hp' | exact Hact].
Defined.

(** ** Time stamps and the memory of the log *)

Section DemoLog.
Import JS Demo.

Lemma replace_first_app x y pre post :
  x ∉ pre -> replace_first x y (pre ++ x :: post) = pre ++ y :: post.
Proof.
  induction pre as [|c pre IH]; intros Hx; simpl.
  - by rewrite N.eqb_refl.
  - apply not_elem_of_cons in Hx as [Hne Hx].
    rewrite (proj2 (N.eqb_neq c x)) by done. by rewrite IH.
Qed.

Lemma replace_first_absent x y s : x ∉ s -> replace_first x y s = s.
Proof.
  induction s as [|c s IH]; intros Hx; simpl; [done |].
  apply not_elem_of_cons in Hx as [Hne Hx].
  rewrite (proj2 (N.eqb_neq c x)) by done. by rewrite IH.
Qed.

Lemma timestamp_length now : length (timestamp now) = min 19 (length now).
Proof.
  unfold timestamp, slice0. rewrite <- length_take.
  generalize (take 19 now). intros s.
  induction s as [|c s IH]; simpl; [done |].
  destruct (c =? 84)%N; simpl; [done | by rewrite IH].
Qed.
End DemoLog.

(** X8.  The time stamp of a log entry or of a check is the first
    nineteen code units of the ISO string with its first [T] turned into a
    space: for a string made of a ten-unit date without [T], a [T], an
    eight-unit time and anything after it, that is the date, a space and
    the time.  It never has more than nineteen code units, and a string
    without [T] among its first nineteen is only cut. *)
Theorem timestamp_of_iso_string :
  forall date time rest : JS.jsstring,
    length date = 10 -> 84%N ∉ date -> length time = 8 ->
    Demo.timestamp (date ++ [84%N] ++ time ++ rest) = date ++ [32%N] ++ time
    /\ (forall now, length (Demo.timestamp now) = min 19 (length now))
    /\ (forall now, 84%N ∉ take 19 now -> Demo.timestamp now = take 19 now).
Proof.
  intros date time rest Hdate Hno Htime.
  split; [| split].
  - unfold Demo.timestamp, JS.slice0.
    rewrite take_app_ge by lia. rewrite Hdate. simpl take.
    rewrite take_app_ge by lia. rewrite Htime. simpl take.
    rewrite take_0, app_nil_r. by apply replace_first_app.
  - apply timestamp_length.
  - intros now Hnow. by apply replace_first_absent.
Qed.

Lemma timestamp_of_iso_string_witness :
  Demo.timestamp
    (JS.lit "2024-01-15" ++ [84%N] ++ JS.lit "14:31:00" ++ JS.lit ".000Z")
  = JS.lit "2024-01-15" ++ [32%N] ++ JS.lit "14:31:00".
Proof.
  assert (84%N ∉ JS.lit "2024-01-15") as Hno.
  { intros H. apply list_elem_of_In in H. simpl in H.
    repeat (destruct H as [H|H]; [discriminate |]). exact H. }
  destruct (timestamp_of_iso_string (JS.lit "2024-01-15") (JS.lit "14:31:00")
              (JS.lit ".000Z") eq_refl Hno eq_refl) as [H _].
  exact H.
Defined.

(** X9.  The log forgets: once twenty entries or more have been recorded
    one after the other, the list holds exactly the last twenty of them,
    the latest on top, and nothing of what it held before, whatever that
    was. *)
Theorem activity_log_forgets :
  forall (records : list (JS.jsstring * JS.jsstring)) (s : Demo.state),
    20 <= length records ->
    Demo.logsList (foldl (fun s r => Demo.addLogEntry r.1 r.2 s) s records)
    = take 20
        (rev (map (fun r => {| Demo.logTime := Demo.timestamp r.1;
                               Demo.logMessage := r.2 |})
                  records)).
Proof.
  intros records s Hlen.
  destruct records as [|r records]; [simpl in Hlen; lia |].
  simpl foldl. rewrite addLogEntry_many by apply addLogEntry_length.
  rewrite addLogEntry_logsList. simpl map. simpl rev.
  set (older := rev _).
  assert (length older = length records) as Holder
    by (subst older; by rewrite length_rev, length_map).
  simpl in Hlen. rewrite !(take_app _ _ 20). f_equal.
  destruct (20 - length older) as [|[|n]] eqn:Hn; [done | | lia].
  simpl. by rewrite take_0.
Qed.

Lemma activity_log_forgets_witness :
  Demo.logsList
    (foldl (fun s r => Demo.addLogEntry r.1 r.2 s) Demo.init
       (replicate 20 (JS.lit "2024-01-15T14:31:00.000Z", JS.lit "tick")))
  = take 20
      (rev (map (fun r => {| Demo.logTime := Demo.timestamp r.1;
                             Demo.logMessage := r.2 |})
              (replicate 20 (JS.lit "2024-01-15T14:31:00.000Z", JS.lit "tick")))).
Proof.
  apply (activity_log_forgets
           (replicate 20 (JS.lit "2024-01-15T14:31:00.000Z", JS.lit "tick"))
           Demo.init).
  rewrite length_replicate. lia.
Defined.

(** ** The rows and the counters of the demo page *)

Section DemoRows.
Import JS Demo DemoView.

#[local] Arguments keepRecent : simpl never.
#[local] Arguments lit : simpl never.
#[local] Arguments timestamp : simpl never.

(** A handler that ends with [loadProducts] leaves current rows. *)
Lemma rows_current_reload s0 s :
  listening (loadProducts s) = listening s0 ->
  timeouts (loadProducts s) = timeouts s0 ->
  rows_current s0 -> rows_current (loadProducts s).
Proof.
  intros Hl Ht [_ Hwait]. split; [done |].
  rewrite Hl, Ht. exact Hwait.
Qed.

(** A handler that touches neither the array, the objects, the rows nor
    what is waiting keeps current rows. *)
Lemma rows_current_frame s s' :
  rows_current s ->
  listening s' = listening s -> productsList s' = productsList s ->
  heap s' = heap s -> products s' = products s ->
  (forall l, TestResult l ∈ timeouts s' -> TestResult l ∈ timeouts s) ->
  rows_current s'.
Proof.
  intros [Hrows Hwait] Hl Hp Hh Hps Ht. split.
  - rewrite Hl, Hp. unfold objects. rewrite Hh, Hps. exact Hrows.
  - rewrite Hl. intros Hnot l Hin. by apply (Hwait Hnot l), Ht.
Qed.

Lemma rows_current_step s e :
  enabled s e -> rows_current s -> rows_current (handle e s).
Proof.
  intros Hen Hcur. destruct e; simpl in *.
  - split; [done | discriminate].
  - unfold addProduct. cbv zeta.
    match goal with |- rows_current (showNotification _ _ (updateStats (loadProducts ?x))) =>
      apply (rows_current_frame (loadProducts x)); try done;
      apply (rows_current_reload s); done
    end.
  - unfold testProduct. destruct (find_product s productId); [| done].
    destruct Hcur as [Hrows Hwait]. split; simpl; [done | congruence].
  - unfold viewProduct. destruct (find_product s productId); [| done].
    by apply (rows_current_frame s).
  - unfold deleteProduct. destruct confirmed; [| done].
    match goal with |- rows_current (showNotification _ _ (updateStats (loadProducts ?x))) =>
      apply (rows_current_frame (loadProducts x)); try done;
      apply (rows_current_reload s); done
    end.
  - unfold startMonitoring. destruct (monitoringActive s); [done |].
    by apply (rows_current_frame s).
  - unfold stopMonitoring. destruct (monitoringActive s); [| done].
    simpl. destruct (monitoringInterval s); by apply (rows_current_frame s).
  - apply (rows_current_frame s); try done.
    intros l Hl. simpl in Hl. apply elem_of_app in Hl as [Hl|Hl]; [done |].
    apply list_elem_of_singleton in Hl. discriminate.
  - by apply (rows_current_frame s).
  - destruct (timeouts s !! k) as [c|] eqn:Hk; [| done].
    assert (rows_current (with_timeouts (delete k (timeouts s)) s)) as Hcur'.
    { apply (rows_current_frame s); try done.
      intros l. apply list_elem_of_delete_inv. }
    destruct c; simpl.
    + by apply (rows_current_frame (with_timeouts (delete k (timeouts s)) s)).
    + unfold testProductDone. cbv zeta.
      match goal with |- rows_current (loadProducts ?x) =>
        apply (rows_current_reload (with_timeouts (delete k (timeouts s)) s));
          try done
      end.
    + by apply (rows_current_frame (with_timeouts (delete k (timeouts s)) s)).
  - unfold monitoringTick. destruct (pickProduct r s); [| done]. cbv zeta.
    match goal with |- rows_current (loadProducts ?x) =>
      apply (rows_current_reload s); done
    end.
Qed.

Lemma reachable_rows_current s : reachable s -> rows_current s.
Proof.
  induction 1 as [|s s' _ IH Hstep].
  - split; [discriminate |]. intros _ l Hl.
    apply list_elem_of_singleton in Hl. discriminate.
  - destruct Hstep. by apply rows_current_step.
Qed.

Lemma objects_length s :
  invariant s -> length (objects s) = length (products s).
Proof.
  intros Hinv. unfold objects.
  pose proof (inv_refs s Hinv) as Hrefs.
  induction (products s) as [|l ls IH]; simpl; [done |].
  destruct (lookup_lt_is_Some_2 (heap s) l) as [p ->];
    [apply Hrefs; by left |].
  simpl. f_equal. apply IH. intros l' Hl'. apply Hrefs. by right.
Qed.

Lemma filter_partition {A} (f : A -> bool) (ls : list A) :
  length (List.filter f ls) + length (List.filter (fun x => negb (f x)) ls)
  = length ls.
Proof.
  induction ls as [|x ls IH]; simpl; [done |].
  destruct (f x); simpl; lia.
Qed.
End DemoRows.

(** X10.  The rendered list is never stale: on every page that has
    loaded, in every state the events can lead to, the rows of
    [productsList] are the objects of the [products] array as they are
    now, one row per product, because each handler that changes the array
    or writes to an object ends by rendering the list again. *)
Theorem rendered_rows_are_current :
  forall s : Demo.state,
    Demo.reachable s -> Demo.listening s = true ->
    Demo.productsList s = Demo.objects s
    /\ length (Demo.productsList s) = length (Demo.products s).
Proof.
  intros s Hreach Hlis.
  destruct (reachable_rows_current s Hreach) as [Hrows _].
  split; [by apply Hrows |].
  rewrite (Hrows Hlis). apply objects_length. by apply reachable_invariant.
Qed.

Lemma rendered_rows_are_current_witness :
  let s := Demo.run [Demo.DOMContentLoaded;
                     Demo.ClickStart (JS.lit "2024-01-15T14:31:00.000Z") 7]
             Demo.init in
  Demo.productsList s = Demo.objects s.
Proof.
  intros s.
  assert (Demo.listening s = true) as Hlis by (vm_compute; reflexivity).
  destruct (rendered_rows_are_current s reachable_running Hlis) as [H _].
  exact H.
Defined.

(** X11.  The three counters of the loaded page add up: every product of
    the array is counted once, as active or under Notifications, and the
    total is also the number of rows shown. *)
Theorem counters_add_up :
  forall s : Demo.state,
    Demo.reachable s -> Demo.listening s = true ->
    Demo.totalProducts s = Demo.activeProducts s + Demo.notificationsSent s
    /\ Demo.totalProducts s = length (Demo.productsList s).
Proof.
  intros s Hreach Hlis.
  pose proof (reachable_invariant s Hreach) as Hinv.
  destruct (Demo.inv_stats s Hinv Hlis) as (Htotal & Hactive & Hsent).
  split.
  - rewrite Htotal, Hactive, Hsent. symmetry. apply filter_partition.
  - destruct (reachable_rows_current s Hreach) as [Hrows _].
    rewrite Htotal, (Hrows Hlis). symmetry. by apply objects_length.
Qed.

Lemma counters_add_up_witness :
  let s := Demo.run [Demo.DOMContentLoaded;
                     Demo.ClickStart (JS.lit "2024-01-15T14:31:00.000Z") 7]
             Demo.init in
  Demo.totalProducts s = Demo.activeProducts s + Demo.notificationsSent s.
Proof.
  intros s.
  assert (Demo.listening s = true) as Hlis by (vm_compute; reflexivity).
  destruct (counters_add_up s reachable_running Hlis) as [H _].
  exact H.
Defined.

(** ** Adding, deleting, and a check that comes too late *)

Section DemoAddDelete.
Import JS Demo DemoView.

#[local] Arguments keepRecent : simpl never.
#[local] Arguments lit : simpl never.
#[local] Arguments timestamp : simpl never.

(** The objects the array already refers to look the same after
    [addProduct]. *)
Lemma addProduct_old_refs (h : list product) new (ls : list nat) :
  (forall l, l ∈ ls -> l < length h) ->
  forall l, l ∈ ls -> (h ++ [new]) !! l = h !! l.
Proof. intros Hrefs l Hl. apply lookup_app_l. by apply Hrefs. Qed.

Lemma filter_old_refs (F F' : nat -> bool) (ls : list nat) :
  (forall l, l ∈ ls -> F' l = F l) -> List.filter F' ls = List.filter F ls.
Proof.
  intros H. apply List.filter_ext_in. intros l Hl. apply H.
  by apply list_elem_of_In.
Qed.

Lemma addProduct_is_active f now_ms now s l :
  invariant s -> l ∈ products s ->
  is_active (addProduct f now_ms now s) l = is_active s l
  /\ has_id (addProduct f now_ms now s) now_ms l = has_id s now_ms l.
Proof.
  intros Hinv Hl. unfold is_active, has_id. simpl.
  by rewrite (addProduct_old_refs _ _ (products s) (inv_refs s Hinv) l Hl).
Qed.

Lemma addProduct_new_is_active f now_ms now s :
  is_active (addProduct f now_ms now s) (length (heap s)) = true
  /\ has_id (addProduct f now_ms now s) now_ms (length (heap s)) = true.
Proof.
  unfold is_active, has_id.
  destruct (addProduct_new f now_ms now s) as [-> _]. simpl.
  by rewrite Z.eqb_refl.
Qed.

Lemma addProduct_counters f now_ms now s :
  invariant s -> listening s = true ->
  totalProducts (addProduct f now_ms now s) = S (totalProducts s)
  /\ activeProducts (addProduct f now_ms now s) = S (activeProducts s)
  /\ notificationsSent (addProduct f now_ms now s) = notificationsSent s.
Proof.
  intros Hinv Hlis.
  destruct (inv_stats s Hinv Hlis) as (-> & -> & ->).
  pose proof (addProduct_invariant f now_ms now s Hinv) as Hinv'.
  destruct (inv_stats _ Hinv' Hlis) as (-> & -> & ->).
  destruct (addProduct_new f now_ms now s) as [_ ->].
  destruct (addProduct_new_is_active f now_ms now s) as [Hnew _].
  rewrite !List.filter_app, !length_app. simpl. rewrite Hnew. simpl.
  rewrite (filter_old_refs (is_active s) (is_active (addProduct f now_ms now s)))
    by (intros l Hl; by apply addProduct_is_active).
  rewrite (filter_old_refs (fun l => negb (is_active s l))
             (fun l => negb (is_active (addProduct f now_ms now s) l)))
    by (intros l Hl; f_equal; by apply addProduct_is_active).
  lia.
Qed.

Lemma find_product_none s productId l :
  find_product s productId = None -> l ∈ products s ->
  has_id s productId l = false.
Proof.
  intros Hfind Hl. unfold find_product in Hfind.
  apply (List.find_none _ _ Hfind). by apply list_elem_of_In.
Qed.

Lemma filter_all {A} (f : A -> bool) (ls : list A) :
  (forall x, x ∈ ls -> f x = true) -> List.filter f ls = ls.
Proof.
  induction ls as [|x ls IH]; intros H; simpl; [done |].
  rewrite (H x) by (by left). f_equal. apply IH. intros y Hy. apply H. by right.
Qed.

Lemma addProduct_deleteProduct_products f now_ms now s :
  invariant s -> find_product s now_ms = None ->
  products (deleteProduct now_ms true (addProduct f now_ms now s)) = products s.
Proof.
  intros Hinv Hfresh.
  destruct (deleteProduct_products now_ms (addProduct f now_ms now s)) as [-> _].
  destruct (addProduct_new f now_ms now s) as [_ ->].
  destruct (addProduct_new_is_active f now_ms now s) as [_ Hnew].
  rewrite List.filter_app. simpl. rewrite Hnew. simpl. rewrite app_nil_r.
  apply filter_all. intros l Hl.
  destruct (addProduct_is_active f now_ms now s l Hinv Hl) as [_ ->].
  by rewrite (find_product_none s now_ms l Hfresh Hl).
Qed.

Lemma omap_lookup_ext (h h' : list product) (ls : list nat) :
  (forall l, l ∈ ls -> h' !! l = h !! l) ->
  omap (fun l => h' !! l) ls = omap (fun l => h !! l) ls.
Proof.
  induction ls as [|l ls IH]; intros Hh; [done |].
  assert (omap (fun l => h' !! l) ls = omap (fun l => h !! l) ls) as IH'
    by (apply IH; intros l' Hl'; apply Hh; by right).
  change (omap (fun l => h' !! l) (l :: ls))
    with (match h' !! l with
          | Some p => p :: omap (fun l => h' !! l) ls
          | None => omap (fun l => h' !! l) ls
          end).
  rewrite Hh by (by left). rewrite IH'. done.
Qed.

Lemma objects_old_refs s s' :
  products s' = products s ->
  (forall l, l ∈ products s -> heap s' !! l = heap s !! l) ->
  objects s' = objects s.
Proof.
  intros Hp Hh. unfold objects. rewrite Hp. by apply omap_lookup_ext.
Qed.
End DemoAddDelete.

(** X12.  On a loaded page [addProduct] raises the total and the number
    of active products by one and leaves the counter of notifications as
    it was, and the new product is the last row. *)
Theorem addProduct_counts_one_active_product :
  forall (s : Demo.state) (f : Demo.form) (now_ms : Z) (now : JS.jsstring),
    Demo.reachable s -> Demo.listening s = true ->
    let s' := Demo.addProduct f now_ms now s in
    Demo.totalProducts s' = S (Demo.totalProducts s)
    /\ Demo.activeProducts s' = S (Demo.activeProducts s)
    /\ Demo.notificationsSent s' = Demo.notificationsSent s
    /\ exists p,
         last (Demo.productsList s') = Some p
         /\ Demo.id p = now_ms /\ Demo.isActive p = true
         /\ Demo.lastChecked p = None.
Proof.
  intros s f now_ms now Hreach Hlis s'.
  pose proof (reachable_invariant s Hreach) as Hinv.
  destruct (addProduct_counters f now_ms now s Hinv Hlis) as (Ht & Ha & Hn).
  split; [exact Ht |]. split; [exact Ha |]. split; [exact Hn |].
  destruct (addProduct_new f now_ms now s) as [Hnew Hprods].
  exists {| Demo.id := now_ms;
            Demo.name := Demo.productName f;
            Demo.url := Demo.productUrl f;
            Demo.selector := Demo.productSelector f;
            Demo.expectedText := Demo.expectedTextField f;
            Demo.email := Demo.productEmail f;
            Demo.isActive := true;
            Demo.lastChecked := None;
            Demo.createdAt := Demo.timestamp now |}.
  split; [| done].
  change (Demo.productsList s') with (Demo.objects s').
  unfold Demo.objects. subst s'. rewrite Hprods, omap_app. simpl.
  rewrite lookup_app_r by lia. rewrite Nat.sub_diag. simpl. apply last_snoc.
Qed.

Lemma addProduct_counts_one_active_product_witness :
  let s := Demo.run [Demo.DOMContentLoaded;
                     Demo.ClickStart (JS.lit "2024-01-15T14:31:00.000Z") 7]
             Demo.init in
  let kettle :=
    {| Demo.productName := JS.lit "Kettle";
       Demo.productUrl := JS.lit "https://shop.example/kettle";
       Demo.productSelector := JS.lit ".stock";
       Demo.expectedTextField := JS.lit "Sold out";
       Demo.productEmail := JS.lit "me@example.com" |} in
  let s' := Demo.addProduct kettle 1705329060000
              (JS.lit "2024-01-15T14:31:00.000Z") s in
  Demo.totalProducts s' = S (Demo.totalProducts s)
  /\ Demo.activeProducts s' = S (Demo.activeProducts s).
Proof.
  intros s kettle s'.
  assert (Demo.listening s = true) as Hlis by (vm_compute; reflexivity).
  destruct (addProduct_counts_one_active_product s kettle 1705329060000
              (JS.lit "2024-01-15T14:31:00.000Z") reachable_running Hlis)
    as (Ht & Ha & _).
  split; [exact Ht | exact Ha].
Defined.

(** X13.  Adding a product and deleting it again by its id gives back
    the page as it was, provided no other product has that id: the array,
    the rows and the three counters are those from before the
    addition. *)
Theorem addProduct_then_deleteProduct_restores :
  forall (s : Demo.state) (f : Demo.form) (now_ms : Z) (now : JS.jsstring),
    Demo.reachable s -> Demo.listening s = true ->
    Demo.find_product s now_ms = None ->
    let s' := Demo.deleteProduct now_ms true (Demo.addProduct f now_ms now s) in
    Demo.products s' = Demo.products s
    /\ Demo.productsList s' = Demo.productsList s
    /\ Demo.totalProducts s' = Demo.totalProducts s
    /\ Demo.activeProducts s' = Demo.activeProducts s
    /\ Demo.notificationsSent s' = Demo.notificationsSent s.
Proof.
  intros s f now_ms now Hreach Hlis Hfresh s'.
  pose proof (reachable_invariant s Hreach) as Hinv.
  assert (Demo.products s' = Demo.products s) as Hprods
    by (by apply addProduct_deleteProduct_products).
  assert (forall l, l ∈ Demo.products s ->
            Demo.heap s' !! l = Demo.heap s !! l) as Hheap.
  { intros l Hl. subst s'. simpl.
    apply (addProduct_old_refs _ _ (Demo.products s)); [apply Hinv | done]. }
  assert (forall l, l ∈ Demo.products s ->
            Demo.is_active s' l = Demo.is_active s l) as Hact.
  { intros l Hl. unfold Demo.is_active. by rewrite Hheap. }
  destruct (Demo.inv_stats s Hinv Hlis) as (Ht & Ha & Hn).
  split; [exact Hprods |]. split; [| split; [| split]].
  - destruct (reachable_rows_current s Hreach) as [Hrows _].
    rewrite (Hrows Hlis).
    change (Demo.productsList s') with (Demo.objects s').
    by apply objects_old_refs.
  - change (Demo.totalProducts s') with (length (Demo.products s')).
    by rewrite Hprods, Ht.
  - change (Demo.activeProducts s')
      with (length (List.filter (Demo.is_active s') (Demo.products s'))).
    rewrite Hprods, Ha. f_equal. by apply filter_old_refs.
  - change (Demo.notificationsSent s')
      with (length (List.filter (fun l => negb (Demo.is_active s' l))
                      (Demo.products s'))).
    rewrite Hprods, Hn. f_equal. apply filter_old_refs.
    intros l Hl. f_equal. by apply Hact.
Qed.

Lemma addProduct_then_deleteProduct_restores_witness :
  let s := Demo.run [Demo.DOMContentLoaded;
                     Demo.ClickStart (JS.lit "2024-01-15T14:31:00.000Z") 7]
             Demo.init in
  let kettle :=
    {| Demo.productName := JS.lit "Kettle";
       Demo.productUrl := JS.lit "https://shop.example/kettle";
       Demo.productSelector := JS.lit ".stock";
       Demo.expectedTextField := JS.lit "Sold out";
       Demo.productEmail := JS.lit "me@example.com" |} in
  let s' := Demo.deleteProduct 1705329060000 true
              (Demo.addProduct kettle 1705329060000
                 (JS.lit "2024-01-15T14:31:00.000Z") s) in
  Demo.products s' = Demo.products s
  /\ Demo.productsList s' = Demo.productsList s.
Proof.
  intros s kettle s'.
  assert (Demo.listening s = true) as Hlis by (vm_compute; reflexivity).
  assert (Demo.find_product s 1705329060000 = None) as Hfresh
    by (vm_compute; reflexivity).
  destruct (addProduct_then_deleteProduct_restores s kettle 1705329060000
              (JS.lit "2024-01-15T14:31:00.000Z") reachable_running Hlis Hfresh)
    as (Hp & Hr & _).
  split; [exact Hp | exact Hr].
Defined.

(** X14.  The check of a product that has left the array still reports:
    when the callback of [testProduct] runs on an object the array no
    longer refers to, its notification is shown and its entry is logged,
    under the name of that product, while the array, the objects it
    refers to, the rows and the counters stay as they are. *)
Theorem testProduct_reports_on_deleted_product :
  forall (s : Demo.state) (l : nat) (r : Q) (now1 now2 : JS.jsstring),
    l ∉ Demo.products s ->
    let s' := Demo.testProductDone l r now1 now2 s in
    Demo.products s' = Demo.products s
    /\ Demo.objects s' = Demo.objects s
    /\ Demo.productsList s' = Demo.objects s
    /\ Demo.totalProducts s' = Demo.totalProducts s
    /\ Demo.activeProducts s' = Demo.activeProducts s
    /\ Demo.notificationsSent s' = Demo.notificationsSent s
    /\ length (Demo.shown s') = S (length (Demo.shown s))
    /\ Demo.checkRecord s'
       = Some (JS.lit "Tested " ++ from_option Demo.name [] (Demo.heap s !! l)
               ++ JS.lit ": "
               ++ (if Demo.drawInStock r
                   then JS.lit "IN STOCK" else JS.lit "OUT OF STOCK")).
Proof.
  intros s l r now1 now2 Hout s'.
  assert (Demo.objects s' = Demo.objects s) as Hobj.
  { apply objects_old_refs; [done |].
    intros l' Hl'. subst s'. simpl. apply list_lookup_alter_ne.
    intros ->. done. }
  split; [done |]. split; [exact Hobj |]. split; [exact Hobj |].
  split; [done |]. split; [done |]. split; [done |]. split.
  - subst s'. simpl. rewrite length_app. simpl. lia.
  - apply testProductDone_record.
Qed.

Lemma testProduct_reports_on_deleted_product_witness :
  let s := Demo.run [Demo.DOMContentLoaded; Demo.ClickTest 2;
                     Demo.ClickDelete 2 true]
             Demo.init in
  let s' := Demo.testProductDone 1 (7 # 10) (JS.lit "2024-01-15T14:31:02.000Z")
              (JS.lit "2024-01-15T14:31:02.000Z") s in
  Demo.products s' = Demo.products s
  /\ length (Demo.shown s') = S (length (Demo.shown s)).
Proof.
  intros s s'.
  assert (1 ∉ Demo.products s) as Hout.
  { assert (Demo.products s = [0]) as -> by (vm_compute; reflexivity).
    intros H. apply list_elem_of_singleton in H. discriminate. }
  destruct (testProduct_reports_on_deleted_product s 1 (7 # 10)
              (JS.lit "2024-01-15T14:31:02.000Z")
              (JS.lit "2024-01-15T14:31:02.000Z") Hout)
    as (Hp & _ & _ & _ & _ & _ & Hshown & _).
  split; [exact Hp | exact Hshown].
Defined.

(** ** The counter of notifications, over the events of the page *)

Section DemoCounter.
Import JS Demo.

#[local] Arguments keepRecent : simpl never.
#[local] Arguments lit : simpl never.
#[local] Arguments timestamp : simpl never.

Lemma filter_both_length_le {A} (f g : A -> bool) (ls : list A) :
  length (List.filter (fun x => f x && g x) ls) <= length (List.filter f ls).
Proof.
  induction ls as [|x ls IH]; simpl; [done |].
  destruct (f x), (g x); simpl; lia.
Qed.

(** Once the page has loaded no event raises the counter. *)
Lemma handle_notificationsSent e s :
  invariant s -> listening s = true -> enabled s e ->
  notificationsSent (handle e s) <= notificationsSent s.
Proof.
  intros Hinv Hlis He.
  destruct e as [|f now_ms now|productId|productId|productId confirmed
                 |now timer|now| | |k r now1 now2|timer r now1 now2];
    cbn [handle].
  - simpl in He. congruence.
  - destruct (addProduct_counters f now_ms now s Hinv Hlis) as (_ & _ & ->). done.
  - unfold testProduct. by destruct (find_product s productId).
  - unfold viewProduct. by destruct (find_product s productId).
  - destruct confirmed; [| done].
    rewrite deleteProduct_notificationsSent by done. lia.
  - unfold startMonitoring. by destruct (monitoringActive s).
  - unfold stopMonitoring. destruct (negb (monitoringActive s)); [done |].
    cbv zeta. unfold addLogEntry, showNotification, with_logsList, with_shown.
    cbn [notificationsSent].
    by destruct (monitoringInterval _).
  - done.
  - done.
  - destruct (timeouts s !! k) as [[|l|]|]; done.
  - unfold monitoringTick. by destruct (pickProduct r s).
Qed.

(** No event clears or sets the flag of a product. *)
Lemma handle_isActive e s l p :
  heap s !! l = Some p ->
  exists p', heap (handle e s) !! l = Some p' /\ isActive p' = isActive p.
Proof.
  intros Hp. destruct (handle_heap_extends e s l p Hp) as (p' & Hp' & Heq).
  exists p'. split; [done |].
  unfold forget_lastChecked in Heq. by injection Heq.
Qed.
End DemoCounter.

(** Against C10 as stated: deleting a product does not always move the
    counter.  On the loaded sample page the counter shows 1; deleting the
    active product, id 1, removes it from the array and the counter still
    shows 1. *)
Lemma deleteProduct_active_keeps_counter :
  let s := Demo.run [Demo.DOMContentLoaded] Demo.init in
  let delete := Demo.ClickDelete 1 true in
  Demo.reachable s
  /\ Demo.enabled s delete
  /\ Demo.products s = [0; 1]
  /\ Demo.products (Demo.handle delete s) = [1]
  /\ Demo.notificationsSent s = 1
  /\ Demo.notificationsSent (Demo.handle delete s) = 1.
Proof.
  intros s delete.
  split; [apply reachable_run; [apply Demo.reachable_init | repeat split] |].
  vm_compute. repeat split.
Qed.

(** C10, as the code has it.  On the loaded page the counter labelled
    Notifications is the number of products of the array whose [isActive]
    is false, so it is not a count of notifications.  Deleting lowers it
    by the number of inactive products deleted: it changes exactly when an
    inactive product of the array has the id, and stays as it is when the
    product deleted is active.  Nothing on the page deactivates a product:
    every event leaves the flag of every object as it was, and no event
    raises the counter. *)
Theorem notificationsSent_counts_inactive_products :
  forall s : Demo.state,
    Demo.reachable s -> Demo.listening s = true ->
    Demo.notificationsSent s
    = length (List.filter (fun p => negb (Demo.isActive p)) (Demo.objects s))
    /\ (forall productId,
          Demo.notificationsSent (Demo.deleteProduct productId true s)
          = Demo.notificationsSent s
            - length (List.filter
                        (fun p => negb (Demo.isActive p)
                                  && (Demo.id p =? productId)%Z)
                        (Demo.objects s))
          /\ (Demo.notificationsSent (Demo.deleteProduct productId true s)
              <> Demo.notificationsSent s
              <-> exists p,
                    p ∈ Demo.objects s /\ Demo.isActive p = false
                    /\ Demo.id p = productId)
          /\ Demo.shown (Demo.deleteProduct productId true s)
             = Demo.shown s
               ++ [(JS.lit "Product deleted successfully!", "success")])
    /\ (forall e,
          Demo.enabled s e ->
          Demo.notificationsSent (Demo.handle e s) <= Demo.notificationsSent s)
    /\ (forall e l p,
          Demo.heap s !! l = Some p ->
          exists p',
            Demo.heap (Demo.handle e s) !! l = Some p'
            /\ Demo.isActive p' = Demo.isActive p).
Proof.
  intros s Hreach Hlis.
  pose proof (reachable_invariant s Hreach) as Hinv.
  pose proof (notificationsSent_objects s Hinv Hlis) as Hcount.
  split; [exact Hcount |].
  split.
  - intros productId.
    pose proof (deleteProduct_notificationsSent productId s Hinv Hlis) as Hdel.
    split; [exact Hdel |]. split; [| done].
    rewrite Hdel.
    pose proof (filter_both_length_le (fun p => negb (Demo.isActive p))
                  (fun p => (Demo.id p =? productId)%Z) (Demo.objects s)) as Hle.
    rewrite <- Hcount in Hle.
    destruct (List.filter
                (fun p => negb (Demo.isActive p) && (Demo.id p =? productId)%Z)
                (Demo.objects s)) as [|p deleted] eqn:Hdeleted.
    + split; [intros H; simpl in H; lia |].
      intros (p & Hin & Hflag & Hid).
      assert (In p []) as Hnil; [| done].
      rewrite <- Hdeleted. apply filter_In. split; [by apply list_elem_of_In |].
      rewrite Hflag, Hid, Z.eqb_refl. done.
    + split; [| intros _; simpl in *; lia].
      intros _. exists p.
      assert (In p (p :: deleted)) as Hin by (by left).
      rewrite <- Hdeleted in Hin. apply filter_In in Hin as [Hin Hp].
      apply andb_true_iff in Hp as [Hflag Hid].
      split; [by apply list_elem_of_In |].
      split; [by apply negb_true_iff | by apply Z.eqb_eq].
  - split.
    + intros e He. by apply handle_notificationsSent.
    + intros e l p. apply handle_isActive.
Qed.

Lemma notificationsSent_counts_inactive_products_witness :
  let s := Demo.run [Demo.DOMContentLoaded] Demo.init in
  Demo.notificationsSent s
  = length (List.filter (fun p => negb (Demo.isActive p)) (Demo.objects s))
  /\ Demo.notificationsSent (Demo.deleteProduct 2 true s)
     = Demo.notificationsSent s
       - length (List.filter
                   (fun p => negb (Demo.isActive p) && (Demo.id p =? 2)%Z)
                   (Demo.objects s))
  /\ Demo.notificationsSent
       (Demo.handle (Demo.ClickStart (JS.lit "2024-01-15T14:31:00.000Z") 7) s)
     <= Demo.notificationsSent s.
Proof.
  intros s.
  assert (Demo.reachable s) as Hreach
    by (apply reachable_run; [apply Demo.reachable_init | repeat split]).
  assert (Demo.listening s = true) as Hlis by (vm_compute; reflexivity).
  destruct (notificationsSent_counts_inactive_products s Hreach Hlis)
    as (Hcount & Hdelete & Hevent & _).
  split; [exact Hcount |].
  split; [apply (Hdelete 2%Z) |].
  apply Hevent. split; [exact Hlis | apply not_elem_of_empty].
Defined.
